(** * nimble-miners: request admission and the epoch loop of a miner

    A shallow embedding of [model/lib/blacklist.py], [model/lib/miner.py]
    and [model/lib/run.py], and the properties of the request cache, the
    blacklist pipeline, the [_predict] wrapper and the [run] loop.

    Conventions of the embedding:
    - a Python [str] is a [string] whose characters are the code points
      U+0000..U+00FF; an [int] is a [Z];
    - [time.time()] and the recorded request timestamps are exact rationals
      ([Qc]) in seconds;
    - a Python [dict] is a [gmap]; a [list] is a [list];
    - a call that may raise returns an [outcome]; the mutable miner object
      [self] is passed in and, where the code writes to it, passed out. *)

From Stdlib Require Import ZArith NArith QArith Qcanon String Ascii List Lia.
From stdpp Require Import gmap strings list fin_maps pretty numbers.

Local Open Scope Z_scope.

(** ** Exceptions *)

(** The exception classes the three files raise or catch.  Everything but
    [KeyboardInterrupt] and [SystemExit] derives from [Exception]. *)
Inductive exn : Type :=
| NotImplementedError (msg : string)
| ValueError (msg : string)
| IndexError (msg : string)
| AttributeError (msg : string)
| OtherException (cls msg : string)
| KeyboardInterrupt
| SystemExit.

(** [isinstance(e, Exception)] *)
Definition is_Exception (e : exn) : bool :=
  match e with
  | KeyboardInterrupt | SystemExit => false
  | _ => true
  end.

(** [isinstance(e, NotImplementedError)] *)
Definition is_NotImplementedError (e : exn) : bool :=
  match e with
  | NotImplementedError _ => true
  | _ => false
  end.

(** [str(e)], as the f-strings of the log lines render an exception. *)
Definition exn_str (e : exn) : string :=
  match e with
  | NotImplementedError m | ValueError m | IndexError m
  | AttributeError m | OtherException _ m => m
  | KeyboardInterrupt | SystemExit => ""
  end.

(** The result of a Python call: a value, or a raised exception. *)
Inductive outcome (A : Type) : Type :=
| Ret (a : A)
| Raise (e : exn).
Arguments Ret {A} a.
Arguments Raise {A} e.

(** ** [json.dumps] on a list of strings *)

Module Json.

Definition quote : ascii := "034"%char.
Definition backslash : ascii := "092"%char.

Definition hex_digit (n : N) : ascii :=
  match n with
  | 0%N => "0" | 1%N => "1" | 2%N => "2" | 3%N => "3"
  | 4%N => "4" | 5%N => "5" | 6%N => "6" | 7%N => "7"
  | 8%N => "8" | 9%N => "9" | 10%N => "a" | 11%N => "b"
  | 12%N => "c" | 13%N => "d" | 14%N => "e" | _ => "f"
  end%char.

(** ['\\u{0:04x}'.format(n)] for a code point below 256 *)
Definition u_escape (n : N) : string :=
  String backslash
    (String "u" (String "0" (String "0"
      (String (hex_digit (n / 16)) (String (hex_digit (n mod 16)) ""))))).

(** One character of a string under [ensure_ascii=True]: backslash and the
    double quote are escaped, the five short escapes are used, every other
    character outside [' '..'~'] becomes [\uXXXX]. *)
Definition escape_char (c : ascii) : string :=
  let n := N_of_ascii c in
  if (n =? 34)%N then String backslash (String quote "")
  else if (n =? 92)%N then String backslash (String backslash "")
  else if (n =? 10)%N then String backslash "n"
  else if (n =? 13)%N then String backslash "r"
  else if (n =? 9)%N then String backslash "t"
  else if (n =? 12)%N then String backslash "f"
  else if (n =? 8)%N then String backslash "b"
  else if ((32 <=? n) && (n <=? 126))%N then String c ""
  else u_escape n.

Fixpoint escape (s : string) : string :=
  match s with
  | EmptyString => ""
  | String c rest => escape_char c +:+ escape rest
  end.

Definition dumps_str (s : string) : string :=
  String quote (escape s) +:+ String quote "".

Fixpoint join (sep : string) (items : list string) : string :=
  match items with
  | [] => ""
  | [x] => x
  | x :: rest => x +:+ sep +:+ join sep rest
  end.

(** [json.dumps(l)] for a list of strings, with the default separators. *)
Definition dumps (l : list string) : string :=
  "[" +:+ join ", " (map dumps_str l) +:+ "]".

End Json.

(** ** [hashlib.sha256(...).hexdigest()] (FIPS 180-4) *)

Module Hashlib.

Definition mask32 (x : Z) : Z := Z.land x 0xffffffff.
Definition add32 (x y : Z) : Z := mask32 (x + y).
Definition rotr (n x : Z) : Z :=
  Z.lor (Z.shiftr x n) (mask32 (Z.shiftl x (32 - n))).

Definition Ch (x y z : Z) : Z :=
  Z.lxor (Z.land x y) (Z.land (mask32 (Z.lnot x)) z).
Definition Maj (x y z : Z) : Z :=
  Z.lxor (Z.lxor (Z.land x y) (Z.land x z)) (Z.land y z).
Definition Sigma0 (x : Z) : Z :=
  Z.lxor (Z.lxor (rotr 2 x) (rotr 13 x)) (rotr 22 x).
Definition Sigma1 (x : Z) : Z :=
  Z.lxor (Z.lxor (rotr 6 x) (rotr 11 x)) (rotr 25 x).
Definition sigma0 (x : Z) : Z :=
  Z.lxor (Z.lxor (rotr 7 x) (rotr 18 x)) (Z.shiftr x 3).
Definition sigma1 (x : Z) : Z :=
  Z.lxor (Z.lxor (rotr 17 x) (rotr 19 x)) (Z.shiftr x 10).

(** The constants are read off the first primes, as the standard defines
    them. *)
Definition is_prime (n : Z) : bool :=
  forallb (λ d, negb (n mod d =? 0) || (n <=? d))
          (map Z.of_nat (seq 2 (Z.to_nat (Z.sqrt n)))).

Definition primes : list Z :=
  filter (λ n, is_prime n = true) (map Z.of_nat (seq 2 310)).

(** The integer cube root of [x], the bits of the root tried from bit
    [n - 1] down. *)
Fixpoint cube_root (n : nat) (x acc : Z) : Z :=
  match n with
  | O => acc
  | S n' =>
      let c := acc + 2 ^ Z.of_nat n' in
      if c * c * c <=? x then cube_root n' x c else cube_root n' x acc
  end.

(** The first 32 bits of the fractional part of the cube root of each of
    the first 64 primes. *)
Definition K : list Z :=
  Eval vm_compute in
    map (λ q, mask32 (cube_root 40 (q * 2 ^ 96) 0)) (firstn 64 primes).

(** The first 32 bits of the fractional part of the square root of each of
    the first 8 primes. *)
Definition H0 : list Z :=
  Eval vm_compute in
    map (λ q, mask32 (Z.sqrt (q * 2 ^ 64))) (firstn 8 primes).

(** Big-endian bytes of the low [8 * n] bits of [x]. *)
Fixpoint be_bytes (n : nat) (x : Z) : list Z :=
  match n with
  | O => []
  | S n' => Z.land (Z.shiftr x (8 * Z.of_nat n')) 0xff :: be_bytes n' x
  end.

(** The message, a [1] bit, zero bits up to 56 mod 64 bytes, and the bit
    length on 8 bytes. *)
Definition pad (msg : list Z) : list Z :=
  let len := Z.of_nat (length msg) in
  let zeros := Z.to_nat ((55 - len) mod 64) in
  msg ++ 0x80 :: repeat 0 zeros ++ be_bytes 8 (8 * len).

Fixpoint words_of_bytes (fuel : nat) (bs : list Z) : list Z :=
  match fuel, bs with
  | S fuel', b0 :: b1 :: b2 :: b3 :: rest =>
      (Z.shiftl b0 24 + Z.shiftl b1 16 + Z.shiftl b2 8 + b3)
        :: words_of_bytes fuel' rest
  | _, _ => []
  end.

(** The message schedule, newest word first: [rev_w] holds W[t-1], W[t-2], ... *)
Fixpoint extend (n : nat) (rev_w : list Z) : list Z :=
  match n with
  | O => rev_w
  | S n' =>
      let w := add32 (add32 (sigma1 (nth 1 rev_w 0)) (nth 6 rev_w 0))
                     (add32 (sigma0 (nth 14 rev_w 0)) (nth 15 rev_w 0)) in
      extend n' (w :: rev_w)
  end.

Definition schedule (block : list Z) : list Z := rev (extend 48 (rev block)).

Definition round (st : list Z) (kw : Z * Z) : list Z :=
  match st with
  | [a; b; c; d; e; f; g; h] =>
      let t1 := add32 (add32 (add32 h (Sigma1 e)) (add32 (Ch e f g) (fst kw)))
                      (snd kw) in
      let t2 := add32 (Sigma0 a) (Maj a b c) in
      [add32 t1 t2; a; b; c; add32 d t1; e; f; g]
  | _ => st
  end.

Fixpoint zip_with_add (xs ys : list Z) : list Z :=
  match xs, ys with
  | x :: xs', y :: ys' => add32 x y :: zip_with_add xs' ys'
  | _, _ => []
  end.

Definition compress (h : list Z) (block : list Z) : list Z :=
  zip_with_add h (fold_left round (combine K (schedule block)) h).

Fixpoint blocks (fuel : nat) (ws : list Z) : list (list Z) :=
  match fuel with
  | O => []
  | S fuel' =>
      match ws with
      | [] => []
      | _ => firstn 16 ws :: blocks fuel' (skipn 16 ws)
      end
  end.

Definition sha256 (msg : list Z) : list Z :=
  let bs := pad msg in
  let ws := words_of_bytes (length bs) bs in
  fold_left compress (blocks (length ws) ws) H0.

Fixpoint hex_of_word (digits : nat) (w : Z) : string :=
  match digits with
  | O => ""
  | S d =>
      String (Json.hex_digit (Z.to_N (Z.land (Z.shiftr w (4 * Z.of_nat d)) 0xf)))
             (hex_of_word d w)
  end.

Definition hexdigest (h : list Z) : string :=
  fold_right (fun w acc => hex_of_word 8 w +:+ acc) "" h.

End Hashlib.

(** [s.encode()]: UTF-8; a code point below 128 is one byte, one in
    128..255 two. *)
Fixpoint encode (s : string) : list Z :=
  match s with
  | EmptyString => []
  | String c rest =>
      let n := Z.of_N (N_of_ascii c) in
      if n <? 128 then n :: encode rest
      else Z.lor 0xc0 (Z.shiftr n 6) :: Z.lor 0x80 (Z.land n 0x3f) :: encode rest
  end.

(** ** The data the miner works on *)

(** [synapse.dendrite]: the authenticated sender of a request. *)
Record Dendrite : Type := { hotkey : string }.

(** [model.inference.Inference], as far as the three files read it. *)
Record Inference : Type := {
  messages : list string;
  dendrite : Dendrite;
}.

(** [self.metagraph]: the chain height, the registered hotkeys and, by uid
    (the position in [hotkeys]), the validator permits. *)
Record Metagraph : Type := {
  block : Z;
  hotkeys : list string;
  validator_permit : list bool;
}.

(** [self.config]; the fields are named by their last component, the
    sections ([miner.blacklist], [miner], [wandb]) are flattened. *)
Module Config.
Record t : Type := {
  whitelist : list string;             (* miner.blacklist.whitelist *)
  blacklist : list string;             (* miner.blacklist.blacklist *)
  allow_non_registered : bool;         (* miner.blacklist.allow_non_registered *)
  force_validator_permit : bool;       (* miner.blacklist.force_validator_permit *)
  min_request_period : Z;              (* miner.blacklist.min_request_period, minutes *)
  use_request_cache : bool;            (* miner.blacklist.use_request_cache *)
  request_cache_block_span : Z;        (* miner.blacklist.request_cache_block_span *)
  blocks_per_epoch : Z;                (* miner.blocks_per_epoch *)
  no_set_weights : bool;               (* miner.no_set_weights *)
  wandb_on : bool;                     (* wandb.on *)
}.
End Config.

(** The fields of a [Miner] object that the three files read or write. *)
Record Miner : Type := {
  config : Config.t;
  request_cache : gmap string Z;
  metagraph : option Metagraph;
  request_timestamps : gmap string (list Qc);
  last_epoch_block : Z;
}.

Definition set_request_cache (c : gmap string Z) (self : Miner) : Miner :=
  {| config := config self;
     request_cache := c;
     metagraph := metagraph self;
     request_timestamps := request_timestamps self;
     last_epoch_block := last_epoch_block self |}.

Definition set_last_epoch_block (b : Z) (self : Miner) : Miner :=
  {| config := config self;
     request_cache := request_cache self;
     metagraph := metagraph self;
     request_timestamps := request_timestamps self;
     last_epoch_block := b |}.

(** What [nb.logging] and [wandb.log] receive, in order; a call of
    [wandb.log] is recorded when it returns. *)
Inductive log_event : Type :=
| log_trace (msg : string)
| log_info (msg : string)
| log_error (msg : string)
| log_success (msg : string)
| wandb_blacklisted (blacklisted : Z) (return_message hotkey : string)
| wandb_line (line : string).

(** ** Coroutines and truth values *)

(** Calling an [async def] function runs none of its body: it builds a
    coroutine object, and the body runs on the miner when (and if) the
    object is awaited. *)
Record coroutine (A : Type) : Type := Coroutine {
  await : Miner -> outcome A * Miner;
}.
Arguments Coroutine {A} await.
Arguments await {A} c self.

(** The values an [if] of these files tests. *)
Inductive py_value : Type :=
| PyBool (b : bool)
| PyCoroutine {A : Type} (c : coroutine A).

(** [bool(v)]: a coroutine object defines neither [__bool__] nor
    [__len__], so it is true. *)
Definition truth (v : py_value) : bool :=
  match v with
  | PyBool b => b
  | PyCoroutine _ => true
  end.

(** ** blacklist.py *)

(** Lines 30-31: the fingerprint of a request. *)
Definition request_key (synapse : Inference) : string :=
  let request := Json.dumps (messages synapse) in
  Hashlib.hexdigest (Hashlib.sha256 (encode request)).

(** Lines 44-50: the keys whose block plus the span is below the current
    block. *)
Definition keys_to_remove (cache : gmap string Z) (span current_block : Z)
  : list string :=
  (filter (λ kb, bool_decide (kb.2 + span < current_block))
          (map_to_list cache)).*1.

(** Lines 52-53 *)
Definition delete_keys (keys : list string) (cache : gmap string Z)
  : gmap string Z :=
  foldl (λ c key, delete key c) cache keys.

(** Lines 29-55, the body under [self.lock].  Nothing inside the lock
    awaits, so the body runs as one step on the miner. *)
Definition is_request_in_cache_body (synapse : Inference) (self : Miner)
  : outcome bool * Miner :=
  let request_key := request_key synapse in
  match metagraph self with
  | None =>
      (Raise (AttributeError "'NoneType' object has no attribute 'block'"), self)
  | Some mg =>
      let current_block := block mg in
      let '(should_blacklist, cache) :=
        if bool_decide (is_Some (request_cache self !! request_key))
        then (true, request_cache self)
        else (false, <[request_key := current_block]> (request_cache self)) in
      let keys :=
        keys_to_remove cache
          (Config.request_cache_block_span (config self)) current_block in
      (Ret should_blacklist, set_request_cache (delete_keys keys cache) self)
  end.

(** [async def is_request_in_cache(self, synapse)] *)
Definition is_request_in_cache (synapse : Inference) : coroutine bool :=
  Coroutine (is_request_in_cache_body synapse).

(** [l.index(x)] *)
Fixpoint index (x : string) (l : list string) : option nat :=
  match l with
  | [] => None
  | y :: rest => if bool_decide (y = x) then Some O else S <$> index x rest
  end.

Definition passed : outcome (bool * string) := Ret (false, "passed blacklist").

(** Lines 84-94: the request period, then the final verdict. *)
Definition request_period (self : Miner) (synapse : Inference) (now : Qc)
  : outcome (bool * string) :=
  let caller := hotkey (dendrite synapse) in
  match request_timestamps self !! caller with
  | Some stamps =>
      match stamps with
      | [] => Raise (IndexError "list index out of range")
      | first :: _ =>
          let period := (now - first)%Qc in
          let minutes := Config.min_request_period (config self) in
          if bool_decide (period < Qc_of_Z (minutes * 60))%Qc
          then Ret (true,
                 caller +:+ " request frequency exceeded "
                   +:+ pretty (length stamps) +:+ " requests in "
                   +:+ pretty minutes +:+ " minutes.")
          else passed
      end
  | None => passed
  end.

(** Lines 75-82: the validator permit; [None] when the rule lets the
    request through. *)
Definition validator_permit_rule (self : Miner) (synapse : Inference)
  : outcome (option (bool * string)) :=
  let caller := hotkey (dendrite synapse) in
  if Config.force_validator_permit (config self) then
    match metagraph self with
    | None =>
        Raise (AttributeError "'NoneType' object has no attribute 'hotkeys'")
    | Some mg =>
        match index caller (hotkeys mg) with
        | Some uid =>
            match validator_permit mg !! uid with
            | None => Raise (IndexError "index out of range")
            | Some permit =>
                if negb permit
                then Ret (Some (true, "validator permit required"))
                else Ret None
            end
        | None =>
            Ret (Some (true,
              "validator permit required, but hotkey not registered"))
        end
    end
  else Ret None.

(** [def default_blacklist(self, synapse)]; [now] is what [time.time()]
    returns. *)
Definition default_blacklist (self : Miner) (synapse : Inference) (now : Qc)
  : outcome (bool * string) :=
  let caller := hotkey (dendrite synapse) in
  if bool_decide (caller ∈ Config.whitelist (config self))
  then Ret (false, "whitelisted hotkey")
  else if bool_decide (caller ∈ Config.blacklist (config self))
  then Ret (true, "blacklisted hotkey")
  else if negb (Config.allow_non_registered (config self))
          && match metagraph self with
             | Some mg => bool_decide (caller ∉ hotkeys mg)
             | None => false
             end
  then Ret (true, "hotkey not registered")
  else
    match validator_permit_rule self synapse with
    | Raise e => Raise e
    | Ret (Some verdict) => Ret verdict
    | Ret None => request_period self synapse now
    end.

(** What an override of the blacklist rule returns, by its annotation
    [Union[Tuple[bool, str], bool]]; the verdict may also be [None], which
    line 127 tests for. *)
Inductive blacklist_result : Type :=
| Bare (verdict : option bool)
| Pair (verdict : option bool) (reason : string).

(** [str(b)] *)
Definition str_bool (b : bool) : string := if b then "True" else "False".

(** The local variables [does_blacklist] and [reason]: [Some (v, r)] once
    [does_blacklist] holds the verdict [v], and [None] while
    [does_blacklist] is [None] (line 128 then overwrites [reason] before
    anything reads it). *)
Definition locals : Type := option (bool * string).

(** Lines 105-114, the [try] block: the locals when it completes, the
    exception when [func] raises.  A pair has [__len__] and is unpacked; a
    bare verdict gets the reason of line 114. *)
Definition try_override (func : Inference -> outcome blacklist_result)
  (synapse : Inference) : outcome locals :=
  match func synapse with
  | Raise e => Raise e
  | Ret (Pair does_blacklist reason) =>
      Ret (v ← does_blacklist; Some (v, reason))
  | Ret (Bare does_blacklist) =>
      Ret (v ← does_blacklist; Some (v, "no reason provided"))
  end.

(** Lines 116-123, the two [except] clauses, entered with both locals
    still [None]: the locals after the handler, what it logged, and the
    exception still in flight, if any. *)
Definition handle (self : Miner) (synapse : Inference) (now : Qc) (e : exn)
  : locals * list log_event * option exn :=
  if is_NotImplementedError e then
    match default_blacklist self synapse now with
    | Ret verdict => (Some verdict, [], None)
    | Raise e' => (None, [], Some e')
    end
  else if is_Exception e then
    let line := log_error ("Error in blacklist function: " +:+ exn_str e) in
    match default_blacklist self synapse now with
    | Ret verdict => (Some verdict, [line], None)
    | Raise e' => (None, [line], Some e')
    end
  else (None, [], Some e).

(** Lines 125-140, the [finally] block.  Its [return] discards an
    exception in flight; an exception raised inside it propagates. *)
Definition finally (self : Miner) (synapse : Inference) (now : Qc)
  (vars : locals) : outcome (bool * string) * list log_event :=
  let after_default : outcome (bool * string) :=
    match vars with
    | None => default_blacklist self synapse now
    | Some verdict => Ret verdict
    end in
  match after_default with
  | Raise e => (Raise e, [])
  | Ret (does_blacklist, reason) =>
      let line :=
        log_trace ("blacklisted: " +:+ str_bool does_blacklist
                   +:+ ", reason: " +:+ reason) in
      let telemetry :=
        if does_blacklist && Config.wandb_on (config self)
        then [wandb_blacklisted 1 reason (hotkey (dendrite synapse))]
        else [] in
      (Ret (does_blacklist, reason), line :: telemetry)
  end.

(** [def blacklist(self, func, synapse)]: the decision, and what was
    logged. *)
Definition blacklist (self : Miner)
  (func : Inference -> outcome blacklist_result) (synapse : Inference)
  (now : Qc) : outcome (bool * string) * list log_event :=
  let start := log_trace "run blacklist function" in
  let '(vars, logged) :=
    match try_override func synapse with
    | Ret vars => (vars, [])
    | Raise e =>
        let '(vars, logged, _) := handle self synapse now e in (vars, logged)
    end in
  let '(result, logged') := finally self synapse now vars in
  (result, start :: logged ++ logged').

(** ** miner.py *)

(** Lines 243-244: the rule [Miner.blacklist] passes on. *)
Definition _blacklist (synapse : Inference) : outcome blacklist_result :=
  Raise (NotImplementedError "blacklist not implemented in subclass").

(** [Miner.blacklist] *)
Definition Miner_blacklist (self : Miner) (synapse : Inference) (now : Qc)
  : outcome (bool * string) * list log_event :=
  blacklist self _blacklist synapse now.

(** [Miner._predict]; [predict] is the subclass's handler.  Line 193 calls
    [is_request_in_cache] and tests what the call returns. *)
Definition _predict
  (predict : Inference -> Miner -> outcome Inference * Miner)
  (synapse : Inference) (self : Miner) : outcome Inference * Miner :=
  if Config.use_request_cache (config self) then
    if truth (PyCoroutine (is_request_in_cache synapse)) then
      (Raise (ValueError
         ("Blacklisted: Request sent recently in last "
          +:+ pretty (Config.request_cache_block_span (config self))
          +:+ " blocks.")), self)
    else predict synapse self
  else predict synapse self.

(** ** run.py *)

(** The network state the log line of an epoch prints, already rendered. *)
Record Snapshot : Type := {
  snapshot_block : string;
  stake : string;
  rank : string;
  trust : string;
  consensus : string;
  incentive : string;
  emission : string;
}.

(** The collaborators of [run].  The loop's interactions with them are
    numbered 0, 1, 2, ... in the order they happen; each oracle says how the
    collaborator answers when it is the one addressed at that moment.
    [should_exit] is the flag the supervising thread writes; [wandb_log] is
    [wandb.log], which line 117 hands the log line, a [str]. *)
Record World : Type := {
  is_hotkey_registered : bool;
  get_current_block : nat -> outcome Z;
  sleep : nat -> outcome ();
  should_exit : nat -> bool;
  fetch_metagraph : nat -> outcome Snapshot;
  wandb_log : nat -> outcome ();
  set_weights : nat -> outcome ();
}.

(** The state [run] works on: the miner, the local [step], the number of
    interactions so far, whether the axon is running, and the log. *)
Record Loop : Type := {
  miner : Miner;
  step : Z;
  clock : nat;
  axon_running : bool;
  logged : list log_event;
}.

Definition tick (st : Loop) : Loop :=
  {| miner := miner st; step := step st; clock := S (clock st);
     axon_running := axon_running st; logged := logged st |}.

Definition write_log (ev : log_event) (st : Loop) : Loop :=
  {| miner := miner st; step := step st; clock := clock st;
     axon_running := axon_running st; logged := logged st ++ [ev] |}.

Definition set_axon (running : bool) (st : Loop) : Loop :=
  {| miner := miner st; step := step st; clock := clock st;
     axon_running := running; logged := logged st |}.

Definition set_miner (m : Miner) (st : Loop) : Loop :=
  {| miner := m; step := step st; clock := clock st;
     axon_running := axon_running st; logged := logged st |}.

Definition set_step (n : Z) (st : Loop) : Loop :=
  {| miner := miner st; step := n; clock := clock st;
     axon_running := axon_running st; logged := logged st |}.

(** How a piece of the loop ends: normally, by an exception, or not within
    the iterations the model was given. *)
Inductive result (A : Type) : Type :=
| Done (a : A) (st : Loop)
| Threw (e : exn) (st : Loop)
| OutOfFuel.
Arguments Done {A} a st.
Arguments Threw {A} e st.
Arguments OutOfFuel {A}.

Definition M (A : Type) : Type := Loop -> result A.

Definition mret {A} (a : A) : M A := λ st, Done a st.

Definition mbind {A B} (m : M A) (k : A -> M B) : M B :=
  λ st, match m st with
        | Done a st' => k a st'
        | Threw e st' => Threw e st'
        | OutOfFuel => OutOfFuel
        end.

Notation "x <~ m ;; k" := (mbind m (λ x, k))
  (at level 100, m at next level, right associativity).
Notation "m ;;; k" := (mbind m (λ _, k))
  (at level 100, right associativity).

(** One interaction with a collaborator. *)
Definition call {A} (oracle : nat -> outcome A) : M A :=
  λ st, match oracle (clock st) with
        | Ret a => Done a (tick st)
        | Raise e => Threw e (tick st)
        end.

(** One read of [self.should_exit]. *)
Definition read_should_exit (w : World) : M bool :=
  λ st, Done (should_exit w (clock st)) (tick st).

Definition modify (f : Loop -> Loop) : M () := λ st, Done () (f st).

Definition get_loop : M Loop := λ st, Done st st.

(** Lines 84-95: wait until the chain is [blocks_per_epoch] past
    [last_epoch_block], or until [should_exit] is seen after a poll. *)
Fixpoint wait_for_epoch (fuel : nat) (w : World) (current_block : Z)
  : M () :=
  st <~ get_loop ;;
  if bool_decide (current_block - last_epoch_block (miner st)
                  < Config.blocks_per_epoch (config (miner st)))
  then
    match fuel with
    | O => λ _, OutOfFuel
    | S fuel' =>
        call (sleep w) ;;;
        current_block' <~ call (get_current_block w) ;;
        exit <~ read_should_exit w ;;
        if exit then mret () else wait_for_epoch fuel' w current_block'
    end
  else mret ().

(** Lines 105-114: the log line of an epoch. *)
Definition epoch_line (step : Z) (s : Snapshot) : string :=
  "Step:" +:+ pretty step +:+ " | "
  +:+ "Block:" +:+ snapshot_block s +:+ " | "
  +:+ "Stake:" +:+ stake s +:+ " | "
  +:+ "Rank:" +:+ rank s +:+ " | "
  +:+ "Trust:" +:+ trust s +:+ " | "
  +:+ "Consensus:" +:+ consensus s +:+ " | "
  +:+ "Incentive:" +:+ incentive s +:+ " | "
  +:+ "Emission:" +:+ emission s.

(** Lines 81-128: the body of the outer [while]. *)
Definition epoch (fuel : nat) (w : World) : M () :=
  current_block <~ call (get_current_block w) ;;
  wait_for_epoch fuel w current_block ;;;
  b <~ call (get_current_block w) ;;
  modify (λ st, set_miner (set_last_epoch_block b (miner st)) st) ;;;
  snapshot <~ call (fetch_metagraph w) ;;
  st <~ get_loop ;;
  let log := epoch_line (step st) snapshot in
  modify (write_log (log_info log)) ;;;
  (if Config.wandb_on (config (miner st))
   then call (wandb_log w) ;;; modify (write_log (wandb_line log))
   else mret ()) ;;;
  (if negb (Config.no_set_weights (config (miner st)))
   then call (set_weights w) else mret ()) ;;;
  modify (λ st, set_step (step st + 1) st).

(** Lines 80-128: [while not self.should_exit]. *)
Fixpoint main_loop (fuel : nat) (w : World) : M () :=
  exit <~ read_should_exit w ;;
  if exit then mret ()
  else
    match fuel with
    | O => λ _, OutOfFuel
    | S fuel' => epoch fuel' w ;;; main_loop fuel' w
    end.

(** How a call of [run] ends. *)
Inductive run_result : Type :=
| Returned (st : Loop)
| Raised (e : exn) (st : Loop)
| StillRunning.

(** [def run(self)]: the registration check, the start of the axon, then
    the loop inside [try]; [exit()] raises [SystemExit].  The texts of the
    log lines are abridged. *)
Definition run (fuel : nat) (w : World) (self : Miner) : run_result :=
  let st0 := {| miner := self; step := 0; clock := O;
                axon_running := false; logged := [] |} in
  if negb (is_hotkey_registered w) then
    Raised SystemExit
      (write_log (log_error "Wallet is not registered. Please register the hotkey using `nbcli subnets register` before trying again") st0)
  else
    let st1 := write_log (log_info "Serving axon") st0 in
    let st2 := set_axon true (write_log (log_info "Starting axon server") st1) in
    match call (get_current_block w) st2 with
    | OutOfFuel => StillRunning
    | Threw e st => Raised e st
    | Done b st3 =>
        let st4 := set_miner (set_last_epoch_block b (miner st3)) st3 in
        let st5 := write_log (log_info ("Miner starting at block: " +:+ pretty b)) st4 in
        let st6 := set_step 0 (write_log (log_info "Starting main loop") st5) in
        (* try *)
        match main_loop fuel w st6 with
        | Done _ st => Returned st
        | OutOfFuel => StillRunning
        | Threw e st =>
            match e with
            | KeyboardInterrupt =>
                (* except KeyboardInterrupt *)
                Raised SystemExit
                  (write_log (log_success "Miner killed by keyboard interrupt.")
                     (set_axon false st))
            | _ =>
                if is_Exception e
                then (* except Exception as e *)
                  Returned (write_log (log_error ("Traceback: " +:+ exn_str e)) st)
                else Raised e st
            end
        end
    end.

(** ** miner.py: the registration check of the constructor *)

(** Lines 93-103 of [Miner.__init__]: the miner's uid is the position of
    its own hotkey among the registered ones; a hotkey that is not
    registered ends the process. *)
Definition my_subnet_uid (ss58_address : string) (mg : Metagraph)
  : outcome nat :=
  match index ss58_address (hotkeys mg) with
  | None => Raise SystemExit
  | Some uid => Ret uid
  end.

(** ** miner.py: the background thread *)

Module Supervisor.

(** The fields of [self] set at lines 133-135; a thread object is named by
    the number of thread objects created before it. *)
Record t : Type := {
  should_exit : bool;
  is_running : bool;
  thread : option nat;
}.

(** What the four methods do to the outside: the debug lines, and the
    threads they start and join. *)
Inductive event : Type :=
| debug (msg : string)
| thread_start (id : nat)
| thread_join (id : nat) (timeout : Z).

(** The miner's fields, the number of thread objects created so far, and
    the events so far, oldest first. *)
Record system : Type := {
  self : t;
  created : nat;
  trace : list event;
}.

(** Lines 133-135, as [__init__] leaves them. *)
Definition constructed : system :=
  {| self := {| should_exit := false; is_running := false; thread := None |};
     created := O;
     trace := [] |}.

(** [Miner.run_in_background_thread] *)
Definition run_in_background_thread (sys : system) : system :=
  if negb (is_running (self sys)) then
    let id := created sys in
    {| self := {| should_exit := false; is_running := true;
                  thread := Some id |};
       created := S (created sys);
       trace := trace sys
                ++ [debug "Starting miner in background thread.";
                    thread_start id; debug "Started"] |}
  else sys.

(** [Miner.stop_run_thread]; [self.thread.join(5)] on a thread that is
    [None] raises, after the flag has been set. *)
Definition stop_run_thread (sys : system) : outcome () * system :=
  if is_running (self sys) then
    match thread (self sys) with
    | None =>
        (Raise (AttributeError "'NoneType' object has no attribute 'join'"),
         {| self := {| should_exit := true; is_running := true;
                       thread := None |};
            created := created sys;
            trace := trace sys ++ [debug "Stopping miner in background thread."] |})
    | Some id =>
        (Ret (),
         {| self := {| should_exit := true; is_running := false;
                       thread := Some id |};
            created := created sys;
            trace := trace sys
                     ++ [debug "Stopping miner in background thread.";
                         thread_join id 5; debug "Stopped"] |})
    end
  else (Ret (), sys).

(** [Miner.__enter__] *)
Definition __enter__ (sys : system) : system := run_in_background_thread sys.

(** [Miner.__exit__]; it returns [None], so an exception of the [with]
    body is not suppressed. *)
Definition __exit__ (sys : system) : outcome () * system := stop_run_thread sys.

(** A call of one of the four methods. *)
Inductive method : Type := start | stop | enter | leave.

Definition invoke (m : method) (sys : system) : outcome () * system :=
  match m with
  | start => (Ret (), run_in_background_thread sys)
  | stop => stop_run_thread sys
  | enter => (Ret (), __enter__ sys)
  | leave => __exit__ sys
  end.

(** The calls one after the other; the first one that raises ends the
    sequence. *)
Fixpoint invoke_all (ms : list method) (sys : system) : outcome () * system :=
  match ms with
  | [] => (Ret (), sys)
  | m :: later =>
      match invoke m sys with
      | (Ret _, sys') => invoke_all later sys'
      | (Raise e, sys') => (Raise e, sys')
      end
  end.

(** Reads a trace from a state where [running] is the thread started and
    not yet joined, if any: a thread may start only when none is running,
    and a join must name the running thread.  [None] when the trace breaks
    this, else the thread running at its end. *)
Fixpoint outstanding (running : option nat) (events : list event)
  : option (option nat) :=
  match events with
  | [] => Some running
  | debug _ :: later => outstanding running later
  | thread_start id :: later =>
      match running with
      | None => outstanding (Some id) later
      | Some _ => None
      end
  | thread_join id _ :: later =>
      match running with
      | Some id' => if bool_decide (id = id') then outstanding None later else None
      | None => None
      end
  end.

End Supervisor.

(** * Vocabulary of the statements *)

(** [synapse.dendrite.hotkey] *)
Definition caller (synapse : Inference) : string := hotkey (dendrite synapse).

(** The cache as the membership test of lines 36-41 leaves it. *)
Definition recorded (synapse : Inference) (self : Miner) (current : Z)
  : gmap string Z :=
  match request_cache self !! request_key synapse with
  | Some _ => request_cache self
  | None => <[request_key synapse := current]> (request_cache self)
  end.

(** One awaited call of [is_request_in_cache], as the history of the
    cache remembers it: the fingerprint, the chain height, and whether the
    call reported a duplicate. *)
Record observation : Type := {
  obs_key : string;
  obs_block : Z;
  obs_duplicate : bool;
}.

(** The height at which [key] was first observed, in a history that lists
    the newest call first: the height of the latest call for [key] that
    found it absent; the calls after it all found it present. *)
Fixpoint first_observed (history : list observation) (key : string)
  : option Z :=
  match history with
  | [] => None
  | o :: older =>
      if bool_decide (obs_key o = key) && negb (obs_duplicate o)
      then Some (obs_block o)
      else first_observed older key
  end.

(** Every entry holds the height of the first observation of its key. *)
Definition cache_invariant (history : list observation)
  (cache : gmap string Z) : Prop :=
  ∀ key b, cache !! key = Some b → first_observed history key = Some b.

(** The calls of [is_request_in_cache] one after the other; before each,
    the metagraph is the one synced at that moment.  The result lists the
    newest call first; a call that raises leaves no observation. *)
Fixpoint replay (calls : list (Inference * Metagraph)) (self : Miner)
  : list observation * Miner :=
  match calls with
  | [] => ([], self)
  | (synapse, mg) :: later =>
      let self0 :=
        {| config := config self; request_cache := request_cache self;
           metagraph := Some mg;
           request_timestamps := request_timestamps self;
           last_epoch_block := last_epoch_block self |} in
      let '(r, self1) := await (is_request_in_cache synapse) self0 in
      let '(history, self2) := replay later self1 in
      match r with
      | Ret dup =>
          (history ++ [{| obs_key := request_key synapse;
                          obs_block := block mg;
                          obs_duplicate := dup |}], self2)
      | Raise _ => (history, self2)
      end
  end.

(** The rules of [default_blacklist], as conditions on the caller. *)
Definition whitelisted (self : Miner) (synapse : Inference) : Prop :=
  caller synapse ∈ Config.whitelist (config self).

Definition blacklisted (self : Miner) (synapse : Inference) : Prop :=
  caller synapse ∈ Config.blacklist (config self).

Definition unregistered (self : Miner) (synapse : Inference) : Prop :=
  ∃ mg, metagraph self = Some mg ∧ caller synapse ∉ hotkeys mg.

Definition registration_rejects (self : Miner) (synapse : Inference) : Prop :=
  Config.allow_non_registered (config self) = false ∧ unregistered self synapse.

(** The caller is registered, with the permit bit [permit]. *)
Definition registered_with (permit : bool) (self : Miner)
  (synapse : Inference) : Prop :=
  ∃ mg uid, metagraph self = Some mg
    ∧ index (caller synapse) (hotkeys mg) = Some uid
    ∧ validator_permit mg !! uid = Some permit.

Definition permit_passes (self : Miner) (synapse : Inference) : Prop :=
  Config.force_validator_permit (config self) = false
  ∨ registered_with true self synapse.

(** The request period in seconds. *)
Definition limit (self : Miner) : Qc :=
  Qc_of_Z (Config.min_request_period (config self) * 60).

Definition frequency_reason (self : Miner) (synapse : Inference)
  (stamps : list Qc) : string :=
  caller synapse +:+ " request frequency exceeded "
    +:+ pretty (length stamps) +:+ " requests in "
    +:+ pretty (Config.min_request_period (config self)) +:+ " minutes.".

(** The documented order of the rules: each rule applies when it matches
    and no rule before it does. *)
Inductive documented_chain (self : Miner) (synapse : Inference) (now : Qc)
  : bool * string -> Prop :=
| chain_whitelist :
    whitelisted self synapse →
    documented_chain self synapse now (false, "whitelisted hotkey")
| chain_blacklist :
    ¬ whitelisted self synapse →
    blacklisted self synapse →
    documented_chain self synapse now (true, "blacklisted hotkey")
| chain_registration :
    ¬ whitelisted self synapse → ¬ blacklisted self synapse →
    registration_rejects self synapse →
    documented_chain self synapse now (true, "hotkey not registered")
| chain_permit_missing :
    ¬ whitelisted self synapse → ¬ blacklisted self synapse →
    ¬ registration_rejects self synapse →
    Config.force_validator_permit (config self) = true →
    registered_with false self synapse →
    documented_chain self synapse now (true, "validator permit required")
| chain_permit_unregistered :
    ¬ whitelisted self synapse → ¬ blacklisted self synapse →
    ¬ registration_rejects self synapse →
    Config.force_validator_permit (config self) = true →
    unregistered self synapse →
    documented_chain self synapse now
      (true, "validator permit required, but hotkey not registered")
| chain_rate_limit first rest :
    ¬ whitelisted self synapse → ¬ blacklisted self synapse →
    ¬ registration_rejects self synapse →
    permit_passes self synapse →
    request_timestamps self !! caller synapse = Some (first :: rest) →
    (now - first < limit self)%Qc →
    documented_chain self synapse now
      (true, frequency_reason self synapse (first :: rest))
| chain_passed :
    ¬ whitelisted self synapse → ¬ blacklisted self synapse →
    ¬ registration_rejects self synapse →
    permit_passes self synapse →
    (request_timestamps self !! caller synapse = None
     ∨ ∃ first rest,
         request_timestamps self !! caller synapse = Some (first :: rest)
         ∧ ¬ (now - first < limit self)%Qc) →
    documented_chain self synapse now (false, "passed blacklist").

(** A miner as its constructor and the chain client leave it: the
    metagraph is loaded and holds one permit per registered hotkey, and no
    caller has an empty list of timestamps. *)
Definition consistent (self : Miner) : Prop :=
  (∃ mg, metagraph self = Some mg
         ∧ length (validator_permit mg) = length (hotkeys mg))
  ∧ (∀ who, request_timestamps self !! who ≠ Some []).

(** A decision is well formed when it is a verdict with a reason that is
    not empty. *)
Definition well_formed (decision : outcome (bool * string)) : Prop :=
  match decision with
  | Ret (_, reason) => reason ≠ ""
  | Raise _ => False
  end.

(** ** Inputs of the examples *)

Definition base_config (wandb : bool) : Config.t :=
  {| Config.whitelist := ["vip"];
     Config.blacklist := ["vip"; "spammer"];
     Config.allow_non_registered := false;
     Config.force_validator_permit := true;
     Config.min_request_period := 1;
     Config.use_request_cache := true;
     Config.request_cache_block_span := 7;
     Config.blocks_per_epoch := 2;
     Config.no_set_weights := false;
     Config.wandb_on := wandb |}.

(** The configuration of the examples: [wandb] is off. *)
Definition example_config : Config.t := base_config false.

Definition example_metagraph (height : Z) : Metagraph :=
  {| block := height;
     hotkeys := ["validator"; "plain"];
     validator_permit := [true; false] |}.

(** A miner at block 100 with an empty cache; "validator" sent requests at
    seconds 1000 and 1010. *)
Definition example_miner : Miner :=
  {| config := example_config;
     request_cache := ∅;
     metagraph := Some (example_metagraph 100);
     request_timestamps := {[ "validator" := [Qc_of_Z 1000; Qc_of_Z 1010] ]};
     last_epoch_block := 0 |}.

(** The same miner with [wandb.on] set. *)
Definition reporting_miner : Miner :=
  {| config := base_config true;
     request_cache := request_cache example_miner;
     metagraph := metagraph example_miner;
     request_timestamps := request_timestamps example_miner;
     last_epoch_block := last_epoch_block example_miner |}.

Definition request_from (who : string) (msgs : list string) : Inference :=
  {| messages := msgs; dendrite := {| hotkey := who |} |}.

Definition hello : Inference := request_from "validator" ["hello"].

(** The same miner at block 100, with ["hello"] recorded at block 90: with
    a span of 7 blocks the entry has expired. *)
Definition stale_miner : Miner :=
  set_request_cache {[ request_key hello := 90 ]} example_miner.

Definition farewell : Inference := request_from "plain" ["bye"].

Definition greeting : Inference := request_from "plain" ["good morning"].

(** The same miner at block 100, with ["hello"] recorded at block 95 and
    ["bye"] at block 90: with a span of 7 blocks the first entry is in
    force and the second has expired. *)
Definition busy_miner : Miner :=
  set_request_cache {[ request_key hello := 95; request_key farewell := 90 ]}
    example_miner.

(** The calls that left the cache of [busy_miner], newest first. *)
Definition busy_history : list observation :=
  [ {| obs_key := request_key hello; obs_block := 95; obs_duplicate := false |};
    {| obs_key := request_key farewell; obs_block := 90;
       obs_duplicate := false |} ].

(** A [predict] that answers with the request itself. *)
Definition echo (synapse : Inference) (self : Miner)
  : outcome Inference * Miner := (Ret synapse, self).

(** An override of the blacklist rule that rejects without a reason. *)
Definition silent_override (synapse : Inference) : outcome blacklist_result :=
  Ret (Pair (Some true) "").

Definition example_snapshot : Snapshot :=
  {| snapshot_block := "50"; stake := "1.0"; rank := "0.5"; trust := "0.5";
     consensus := "0.5"; incentive := "0.1"; emission := "0.1" |}.

(** A registered miner on a chain whose height is the number of the
    interaction that reads it; nobody asks the loop to stop; the chain query
    that is interaction number [fails_at] times out. *)
Definition flaky_world (fails_at : nat) : World :=
  {| is_hotkey_registered := true;
     get_current_block := λ t,
       if (t =? fails_at)%nat
       then Raise (OtherException "ConnectionError" "chain RPC timed out")
       else Ret (Z.of_nat t);
     sleep := λ _, Ret ();
     should_exit := λ _, false;
     fetch_metagraph := λ _, Ret example_snapshot;
     wandb_log := λ _, Ret ();
     set_weights := λ _, Ret () |}.

(** A chain that stays at block 50, so that the loop polls; the supervisor
    has set [should_exit] by the time of interaction 5. *)
Definition cancelled_world : World :=
  {| is_hotkey_registered := true;
     get_current_block := λ _, Ret 50;
     sleep := λ _, Ret ();
     should_exit := λ t, bool_decide (5 ≤ t)%nat;
     fetch_metagraph := λ _, Ret example_snapshot;
     wandb_log := λ _, Ret ();
     set_weights := λ _, Ret () |}.

(** The same chain; the first [time.sleep] is interrupted from the
    keyboard. *)
Definition interrupted_world : World :=
  {| is_hotkey_registered := true;
     get_current_block := λ _, Ret 50;
     sleep := λ _, Raise KeyboardInterrupt;
     should_exit := λ _, false;
     fetch_metagraph := λ _, Ret example_snapshot;
     wandb_log := λ _, Ret ();
     set_weights := λ _, Ret () |}.

(** A registered miner on a chain whose height is the number of the
    interaction that reads it; no collaborator fails and nobody asks the
    loop to stop. *)
Definition quiet_world : World :=
  {| is_hotkey_registered := true;
     get_current_block := λ t, Ret (Z.of_nat t);
     sleep := λ _, Ret ();
     should_exit := λ _, false;
     fetch_metagraph := λ _, Ret example_snapshot;
     wandb_log := λ _, Ret ();
     set_weights := λ _, Ret () |}.

(** The world of [quiet_world] with a [wandb.log] that refuses what it is
    handed. *)
Definition refusing_world : World :=
  {| is_hotkey_registered := true;
     get_current_block := get_current_block quiet_world;
     sleep := sleep quiet_world;
     should_exit := should_exit quiet_world;
     fetch_metagraph := fetch_metagraph quiet_world;
     wandb_log := λ _, Raise (ValueError "wandb.log must be passed a dictionary");
     set_weights := set_weights quiet_world |}.

(** The state in which [run] enters its loop on [example_miner] when the
    chain is at block 0. *)
Definition loop_start : Loop :=
  {| miner := example_miner; step := 0; clock := 1%nat;
     axon_running := true; logged := [] |}.

(** The part of the loop state that only [step += 1] and the axon calls
    change. *)
Definition frame (st st' : Loop) : Prop :=
  step st' = step st ∧ axon_running st' = axon_running st.

(** A piece of the loop that adds one to [step] when it completes and
    nothing when it raises, and leaves the axon alone. *)
Definition counts {A} (m : M A) : Prop :=
  ∀ st, match m st with
        | Done _ st' =>
            step st' = step st + 1 ∧ axon_running st' = axon_running st
        | Threw _ st' => frame st st'
        | OutOfFuel => True
        end.

(** A piece of the loop that leaves [step] and the axon alone, however it
    ends. *)
Definition keeps {A} (m : M A) : Prop :=
  ∀ st, match m st with
        | Done _ st' | Threw _ st' => frame st st'
        | OutOfFuel => True
        end.

(** The condition the four methods of the background thread keep: the
    trace starts and joins threads in turn and the thread it leaves running
    is [self.thread] exactly when [is_running]; a running miner has a thread
    and a lowered flag; a miner that is not running has its flag raised
    exactly when it has had a thread. *)
Definition settled (sys : Supervisor.system) : Prop :=
  let me := Supervisor.self sys in
  Supervisor.outstanding None (Supervisor.trace sys)
  = Some (if Supervisor.is_running me then Supervisor.thread me else None)
  ∧ (Supervisor.is_running me = true →
     is_Some (Supervisor.thread me) ∧ Supervisor.should_exit me = false)
  ∧ (Supervisor.is_running me = false →
     (Supervisor.should_exit me = true ↔ is_Some (Supervisor.thread me))).

(** The chain client, [time.sleep], the metagraph sync and [set_weights]
    never raise. *)
Definition calm (w : World) : Prop :=
  ∀ t, (∃ b, get_current_block w t = Ret b)
       ∧ sleep w t = Ret ()
       ∧ (∃ s, fetch_metagraph w t = Ret s)
       ∧ set_weights w t = Ret ().

(** The chain never reports a lower height later. *)
Definition monotone_chain (w : World) : Prop :=
  ∀ t t' b b', (t ≤ t')%nat →
    get_current_block w t = Ret b → get_current_block w t' = Ret b' → b ≤ b'.

(** The override of the blacklist rule supplies a verdict. *)
Definition gives_verdict (func : Inference -> outcome blacklist_result)
  (synapse : Inference) : Prop :=
  ∃ verdict,
    func synapse = Ret (Bare (Some verdict))
    ∨ ∃ reason, func synapse = Ret (Pair (Some verdict) reason).

(** Reads back the first character of an escaped string: a left inverse of
    [Json.escape_char], by which the escaping is seen to lose nothing. *)
Definition hex_value (c : ascii) : N :=
  let n := N_of_ascii c in
  if (n <? 58)%N then (n - 48)%N else (n - 87)%N.

Definition unescape_head (s : string) : option (ascii * string) :=
  match s with
  | EmptyString => None
  | String c rest =>
      if negb (N_of_ascii c =? 92)%N then Some (c, rest)
      else
        match rest with
        | EmptyString => None
        | String d rest' =>
            let n := N_of_ascii d in
            if (n =? 34)%N then Some (Json.quote, rest')
            else if (n =? 92)%N then Some (Json.backslash, rest')
            else if (n =? 110)%N then Some ("010"%char, rest')
            else if (n =? 114)%N then Some ("013"%char, rest')
            else if (n =? 116)%N then Some ("009"%char, rest')
            else if (n =? 102)%N then Some ("012"%char, rest')
            else if (n =? 98)%N then Some ("008"%char, rest')
            else
              match rest' with
              | String _ (String _ (String h1 (String h2 rest''))) =>
                  Some (ascii_of_N (16 * hex_value h1 + hex_value h2), rest'')
              | _ => None
              end
        end
  end.

(** Reads back the first character of a UTF-8 encoded string. *)
Definition decode_head (bs : list Z) : option (ascii * list Z) :=
  match bs with
  | [] => None
  | b :: rest =>
      if b <? 128 then Some (ascii_of_N (Z.to_N b), rest)
      else
        match rest with
        | [] => None
        | b2 :: rest' =>
            Some (ascii_of_N
                    (Z.to_N (Z.lor (Z.shiftl (Z.land b 0x1f) 6)
                                   (Z.land b2 0x3f))), rest')
        end
  end.

(** Evaluates a call of [run] on concrete inputs and reads the final state
    off the result. *)
Ltac evaluate_run :=
  lazymatch goal with
  | |- ∃ st, ?r = _ ∧ _ =>
      let v := eval vm_compute in r in
      lazymatch v with
      | Returned ?s => exists s
      | Raised _ ?s => exists s
      end;
      split; [vm_compute; reflexivity | vm_compute; repeat split; reflexivity]
  end.

(** Closes a decidable goal about concrete inputs by evaluating its
    decision procedure. *)
Ltac by_computation := apply (bool_decide_unpack _); vm_compute; exact I.

(** * Properties *)

(** ** The digest and the serialization, against Python's output *)

Example sha256_abc :
  Hashlib.hexdigest (Hashlib.sha256 (encode "abc"))
  = "ba7816bf8f01cfea414140de5dae2223b00361a396177a9cb410ff61f20015ad".
Proof. vm_compute. reflexivity. Qed.

Example sha256_two_blocks :
  Hashlib.hexdigest (Hashlib.sha256 (repeat 97 70))
  = "6bd5e5034855a11241f0dee8fc72850ffd9955b28347a86428b5fa19119f6ad0".
Proof. vm_compute. reflexivity. Qed.

Example dumps_hello :
  Json.dumps ["a"; "b"]
  = "[" +:+ String Json.quote ("a" +:+ String Json.quote (", " +:+ String Json.quote ("b" +:+ String Json.quote "]"))).
Proof. vm_compute. reflexivity. Qed.

(** ** The request cache *)

Section request_cache.
Implicit Types (cache : gmap string Z) (key : string) (span current : Z).

Lemma lookup_delete_keys keys cache key :
  delete_keys keys cache !! key
  = if decide (key ∈ keys) then None else cache !! key.
Proof.
  unfold delete_keys. revert cache.
  induction keys as [|k keys IH]; intros cache.
  - destruct (decide (key ∈ [])) as [Hin|_]; [by apply elem_of_nil in Hin | done].
  - cbn [foldl]. rewrite IH.
    destruct (decide (key ∈ keys)) as [Hin|Hout].
    + rewrite decide_True by (apply elem_of_cons; by right). done.
    + destruct (decide (k = key)) as [->|Hne].
      * rewrite lookup_delete_eq, decide_True by (apply elem_of_cons; by left). done.
      * rewrite lookup_delete_ne by done.
        rewrite decide_False; [done|].
        intros [?|?]%elem_of_cons; congruence.
Qed.

Lemma elem_of_keys_to_remove cache span current key :
  key ∈ keys_to_remove cache span current
  ↔ ∃ b, cache !! key = Some b ∧ b + span < current.
Proof.
  unfold keys_to_remove. rewrite list_elem_of_fmap. split.
  - intros [[k b] [-> Hin]]. apply list_elem_of_filter in Hin as [Hold Hin].
    apply bool_decide_unpack in Hold. apply elem_of_map_to_list in Hin.
    by exists b.
  - intros (b & Hb & Hold). exists (key, b). split; [done|].
    apply list_elem_of_filter. split.
    + by apply bool_decide_pack.
    + by apply elem_of_map_to_list.
Qed.

(** The sweep of lines 44-53 keeps an entry exactly when it has not expired. *)
Lemma lookup_sweep cache span current key b :
  delete_keys (keys_to_remove cache span current) cache !! key = Some b
  ↔ cache !! key = Some b ∧ ¬ (b + span < current).
Proof.
  rewrite lookup_delete_keys. case_decide as Hin.
  - apply elem_of_keys_to_remove in Hin as (b' & Hb' & Hold).
    split; [done|]. intros [Hb Hfresh]. congruence.
  - split; [|by intros [? _]]. intros Hb. split; [done|].
    intros Hold. apply Hin, elem_of_keys_to_remove. eauto.
Qed.

(** X1: collecting the expired keys and deleting them one by one leaves
    the entries that have not expired, whatever the order of the traversal. *)
Lemma sweep_is_filter cache span current :
  delete_keys (keys_to_remove cache span current) cache
  = filter (λ kb, ¬ (kb.2 + span < current)) cache.
Proof.
  apply map_eq. intros key. apply option_eq. intros b.
  rewrite lookup_sweep, map_lookup_filter_Some. done.
Qed.

End request_cache.

(** One awaited call, when the metagraph is there. *)
Lemma await_is_request_in_cache synapse self mg :
  metagraph self = Some mg →
  await (is_request_in_cache synapse) self
  = (Ret (bool_decide (is_Some (request_cache self !! request_key synapse))),
     set_request_cache
       (delete_keys
          (keys_to_remove (recorded synapse self (block mg))
             (Config.request_cache_block_span (config self)) (block mg))
          (recorded synapse self (block mg)))
       self).
Proof.
  intros Hmg. unfold is_request_in_cache, await, is_request_in_cache_body, recorded.
  rewrite Hmg. case_bool_decide as Hin.
  - destruct Hin as [b ->]. done.
  - apply eq_None_not_Some in Hin. rewrite Hin. done.
Qed.

(** The cache after an awaited call, entry by entry. *)
Lemma lookup_after_call synapse self mg key b :
  metagraph self = Some mg →
  request_cache (await (is_request_in_cache synapse) self).2 !! key = Some b
  ↔ (request_cache self !! key = Some b
     ∨ (key = request_key synapse
        ∧ request_cache self !! request_key synapse = None
        ∧ b = block mg))
    ∧ ¬ (b + Config.request_cache_block_span (config self) < block mg).
Proof.
  intros Hmg. rewrite (await_is_request_in_cache _ _ _ Hmg). cbn [snd].
  change (request_cache (set_request_cache ?c _)) with c.
  rewrite lookup_sweep. unfold recorded.
  destruct (request_cache self !! request_key synapse) as [b0|] eqn:Hkey.
  - split; intros [H Hfresh]; (split; [|done]).
    + by left.
    + destruct H as [H|(_ & ? & _)]; [done | congruence].
  - split; intros [H Hfresh]; (split; [|done]).
    + destruct (decide (key = request_key synapse)) as [->|Hne].
      * rewrite lookup_insert_eq in H. right. split_and!; congruence.
      * rewrite lookup_insert_ne in H by done. by left.
    + destruct H as [H|(-> & _ & ->)].
      * rewrite lookup_insert_ne; [done|]. intros <-. congruence.
      * apply lookup_insert_eq.
Qed.

Lemma first_observed_cons o history key :
  first_observed (o :: history) key
  = if bool_decide (obs_key o = key) && negb (obs_duplicate o)
    then Some (obs_block o) else first_observed history key.
Proof. reflexivity. Qed.

(** C6: an awaited call of [is_request_in_cache] reports a duplicate
    exactly when the fingerprint is a key of the cache, records the
    fingerprint at the current block otherwise, and removes exactly the
    entries whose block plus [request_cache_block_span] is below the current
    block; nothing but the cache of the miner changes.  So a call at a block
    up to B + span finds an entry recorded at B and leaves it in place, and
    a call at a later block removes it.  The cache spoken of is the one read
    off the miner after the call. *)
Theorem check_and_record synapse self mg :
  metagraph self = Some mg →
  let key := request_key synapse in
  let span := Config.request_cache_block_span (config self) in
  let current := block mg in
  ∃ duplicate self',
    await (is_request_in_cache synapse) self = (Ret duplicate, self')
    ∧ (config self' = config self ∧ metagraph self' = metagraph self
       ∧ request_timestamps self' = request_timestamps self
       ∧ last_epoch_block self' = last_epoch_block self)
    ∧ (duplicate = true ↔ is_Some (request_cache self !! key))
    ∧ (∀ k b,
         request_cache self' !! k = Some b
         ↔ (request_cache self !! k = Some b
            ∨ (duplicate = false ∧ k = key ∧ b = current))
           ∧ ¬ (b + span < current))
    ∧ (duplicate = false → 0 ≤ span →
       request_cache self' !! key = Some current)
    ∧ (∀ k B, request_cache self !! k = Some B →
         current ≤ B + span →
         request_cache self' !! k = Some B ∧ (k = key → duplicate = true))
    ∧ (∀ k B, request_cache self !! k = Some B →
         B + span < current → request_cache self' !! k = None).
Proof.
  intros Hmg key span current. subst key span current.
  pose proof (lookup_after_call synapse self mg) as Hlook.
  rewrite (await_is_request_in_cache _ _ _ Hmg) in Hlook |- *. cbn [snd] in Hlook.
  eexists _, _. split; [reflexivity|]. split; [done|].
  assert (Hdup : bool_decide (is_Some (request_cache self !! request_key synapse))
                   = true
                 ↔ is_Some (request_cache self !! request_key synapse)).
  { split; [apply bool_decide_eq_true_1 | apply bool_decide_eq_true_2]. }
  split; [exact Hdup|].
  assert (Hiff : ∀ k b,
    request_cache
      (set_request_cache
         (delete_keys
            (keys_to_remove (recorded synapse self (block mg))
               (Config.request_cache_block_span (config self)) (block mg))
            (recorded synapse self (block mg)))
         self) !! k = Some b
    ↔ (request_cache self !! k = Some b
       ∨ (bool_decide (is_Some (request_cache self !! request_key synapse))
          = false
          ∧ k = request_key synapse ∧ b = block mg))
      ∧ ¬ (b + Config.request_cache_block_span (config self) < block mg)).
  { intros k b. rewrite (Hlook k b Hmg).
    split; intros [H Hfresh]; (split; [|done]).
    + destruct H as [H|(-> & Hnone & ->)]; [by left|right].
      split_and!; [|done..]. apply bool_decide_eq_false_2.
      rewrite Hnone. by intros [? ?].
    + destruct H as [H|(Hd & -> & ->)]; [by left|right].
      split_and!; [done| |done]. apply bool_decide_eq_false_1 in Hd.
      by apply eq_None_not_Some. }
  split; [exact Hiff|]. split; [|split].
  - intros Hmiss Hspan. apply Hiff. split; [by right | lia].
  - intros k B HB Hle. split.
    + apply (Hlook k B Hmg). split; [by left | lia].
    + intros ->. apply Hdup. eauto.
  - intros k B HB Hold. apply eq_None_not_Some. intros [b Hb].
    apply (Hlook k b Hmg) in Hb as [[Hb|(-> & Hnone & _)] Hfresh].
    + assert (b = B) as -> by congruence. lia.
    + congruence.
Qed.

(** C10: the membership test comes before the sweep, so an entry that has
    expired but is still in the cache makes the call that looks it up report
    a duplicate, and the sweep of that same call removes it. *)
Theorem expired_entry_still_duplicate synapse self mg B :
  metagraph self = Some mg →
  request_cache self !! request_key synapse = Some B →
  B + Config.request_cache_block_span (config self) < block mg →
  ∃ cache',
    await (is_request_in_cache synapse) self
      = (Ret true, set_request_cache cache' self)
    ∧ cache' !! request_key synapse = None
    ∧ request_cache (await (is_request_in_cache synapse) self).2
      !! request_key synapse = None.
Proof.
  intros Hmg HB Hold.
  pose proof (lookup_after_call synapse self mg (request_key synapse)) as Hlook.
  rewrite (await_is_request_in_cache _ _ _ Hmg) in Hlook |- *.
  cbn [snd] in Hlook |- *.
  change (request_cache (set_request_cache ?c _)) with c in Hlook |- *.
  eexists. split; [|split].
  - rewrite bool_decide_eq_true_2 by eauto. reflexivity.
  - apply eq_None_not_Some. intros [b Hb].
    apply (Hlook b Hmg) in Hb as [[Hb|(_ & Hnone & _)] Hfresh]; [|congruence].
    assert (b = B) as -> by congruence. lia.
  - apply eq_None_not_Some. intros [b Hb].
    apply (Hlook b Hmg) in Hb as [[Hb|(_ & Hnone & _)] Hfresh]; [|congruence].
    assert (b = B) as -> by congruence. lia.
Qed.

(** One call extends the history and keeps the invariant. *)
Lemma invariant_step history synapse self mg :
  metagraph self = Some mg →
  cache_invariant history (request_cache self) →
  cache_invariant
    ({| obs_key := request_key synapse; obs_block := block mg;
        obs_duplicate :=
          bool_decide (is_Some (request_cache self !! request_key synapse)) |}
       :: history)
    (request_cache (await (is_request_in_cache synapse) self).2).
Proof.
  intros Hmg Hinv key b Hb.
  apply (lookup_after_call synapse self mg key b Hmg) in Hb as [Hb _].
  rewrite first_observed_cons. cbn [obs_key obs_block obs_duplicate].
  destruct Hb as [Hb|(-> & Hnone & ->)].
  - case_bool_decide as Hdup; [|by apply Hinv].
    rewrite (bool_decide_eq_true_2 (is_Some _)) by (rewrite Hdup; eauto).
    cbn. by apply Hinv.
  - rewrite bool_decide_eq_true_2 by done.
    rewrite bool_decide_eq_false_2; [done|].
    rewrite Hnone. by intros [? ?].
Qed.

(** X2: from any state that satisfies the invariant, and so from the
    empty cache, every sequence of calls ends in a cache that satisfies it. *)
Lemma replay_keeps_invariant calls self history :
  cache_invariant history (request_cache self) →
  cache_invariant ((replay calls self).1 ++ history)
                  (request_cache (replay calls self).2).
Proof.
  revert self history.
  induction calls as [|[synapse mg] later IH]; intros self history Hinv.
  - done.
  - cbn [replay].
    set (self0 := {| config := config self; request_cache := request_cache self;
                     metagraph := Some mg;
                     request_timestamps := request_timestamps self;
                     last_epoch_block := last_epoch_block self |}).
    assert (Hmg : metagraph self0 = Some mg) by done.
    pose proof (invariant_step history synapse self0 mg Hmg Hinv) as Hstep.
    rewrite (await_is_request_in_cache _ _ _ Hmg) in Hstep |- *.
    cbn [snd] in Hstep.
    specialize (IH _ _ Hstep).
    destruct (replay later _) as [older self2]. cbn [fst snd] in IH |- *.
    by rewrite <- app_assoc.
Qed.

(** C8: an awaited call keeps the invariant of the cache: every entry
    holds the block at which its fingerprint was first observed.  A call
    never changes the block of an entry it keeps, a duplicate included, and
    no fingerprint has two entries. *)
Theorem first_observation_kept history synapse self mg :
  metagraph self = Some mg →
  cache_invariant history (request_cache self) →
  ∃ duplicate self',
    await (is_request_in_cache synapse) self = (Ret duplicate, self')
    ∧ cache_invariant
        ({| obs_key := request_key synapse; obs_block := block mg;
            obs_duplicate := duplicate |} :: history)
        (request_cache self')
    ∧ (∀ key b, request_cache self !! key = Some b →
         request_cache self' !! key = Some b
         ∨ (request_cache self' !! key = None
            ∧ b + Config.request_cache_block_span (config self) < block mg))
    ∧ (∀ b, request_cache self !! request_key synapse = Some b →
         duplicate = true)
    ∧ NoDup (map_to_list (request_cache self')).*1.
Proof.
  intros Hmg Hinv.
  pose proof (lookup_after_call synapse self mg) as Hlook.
  pose proof (invariant_step history synapse self mg Hmg Hinv) as Hstep.
  rewrite (await_is_request_in_cache _ _ _ Hmg) in Hlook, Hstep |- *.
  cbn [snd] in Hlook, Hstep.
  eexists _, _. split; [reflexivity|]. split; [exact Hstep|split; [|split]].
  - intros key b Hb.
    destruct (decide (b + Config.request_cache_block_span (config self)
                      < block mg)) as [Hold|Hfresh].
    + right. split; [|done]. apply eq_None_not_Some. intros [b' Hb'].
      apply (Hlook key b' Hmg) in Hb' as [[Hb'|(-> & Hnone & _)] Hfresh];
        [|congruence].
      assert (b' = b) as -> by congruence. lia.
    + left. apply (Hlook key b Hmg). split; [by left | done].
  - intros b Hb. apply bool_decide_eq_true_2. eauto.
  - apply NoDup_fst_map_to_list.
Qed.

(** C9: requests with the same message sequence get the same fingerprint,
    whoever sent them, and [is_request_in_cache] treats them alike on every
    miner. *)
Theorem fingerprint_deterministic (s1 s2 : Inference) :
  messages s1 = messages s2 →
  request_key s1 = request_key s2
  ∧ ∀ self, await (is_request_in_cache s1) self
            = await (is_request_in_cache s2) self.
Proof.
  intros Hmsgs.
  assert (Hkey : request_key s1 = request_key s2).
  { unfold request_key. by rewrite Hmsgs. }
  split; [done|]. intros self.
  unfold is_request_in_cache, await, is_request_in_cache_body.
  by rewrite Hkey.
Qed.

(** The fingerprint of the one-message request ["hello"], as Python
    computes it. *)
Example fingerprint_hello :
  request_key hello
  = "c7a0f7154e64cd96c617f251dc12c4396b7234c2856ccf4860ab7af537dfcdd9".
Proof. vm_compute. reflexivity. Qed.

Example fingerprint_escapes :
  request_key
    (request_from "plain"
       [String "q" (String Json.quote (String Json.backslash
          (String "010" (String "127" (String "233" "")))))])
  = "606e8e57a442d641a653003aff5eec8409af868e362d8dd460a74825af1f96b9".
Proof. vm_compute. reflexivity. Qed.

Lemma check_and_record_witness :
  metagraph busy_miner = Some (example_metagraph 100)
  ∧ (∃ self',
       await (is_request_in_cache hello) busy_miner = (Ret true, self')
       ∧ request_cache self' !! request_key hello = Some 95
       ∧ request_cache self' !! request_key farewell = None)
  ∧ (∃ self',
       await (is_request_in_cache greeting) busy_miner = (Ret false, self')
       ∧ request_cache self' !! request_key greeting = Some 100
       ∧ request_cache self' !! request_key hello = Some 95
       ∧ request_cache self' !! request_key farewell = None).
Proof.
  assert (Hmg : metagraph busy_miner = Some (example_metagraph 100))
    by reflexivity.
  assert (Hhello : request_cache busy_miner !! request_key hello = Some 95)
    by (vm_compute; reflexivity).
  assert (Hbye : request_cache busy_miner !! request_key farewell = Some 90)
    by (vm_compute; reflexivity).
  assert (Hnew : request_cache busy_miner !! request_key greeting = None)
    by (vm_compute; reflexivity).
  assert (Hfresh : block (example_metagraph 100)
                   ≤ 95 + Config.request_cache_block_span (config busy_miner))
    by (vm_compute; discriminate).
  assert (Hold : 90 + Config.request_cache_block_span (config busy_miner)
                 < block (example_metagraph 100))
    by (vm_compute; reflexivity).
  assert (Hspan : 0 ≤ Config.request_cache_block_span (config busy_miner))
    by (vm_compute; discriminate).
  split; [exact Hmg|]. split.
  - destruct (check_and_record hello busy_miner (example_metagraph 100) Hmg)
      as (duplicate & self' & Hcall & _ & Hdup & _ & _ & Hkept & Hgone).
    assert (duplicate = true) as Htrue by (apply Hdup; eauto).
    exists self'. split; [by rewrite <- Htrue|]. split.
    + exact (proj1 (Hkept _ 95 Hhello Hfresh)).
    + exact (Hgone _ 90 Hbye Hold).
  - destruct (check_and_record greeting busy_miner (example_metagraph 100) Hmg)
      as (duplicate & self' & Hcall & _ & Hdup & _ & Hinsert & Hkept & Hgone).
    assert (duplicate = false) as Hfalse.
    { destruct duplicate; [|done].
      destruct (proj1 Hdup eq_refl) as [b Hb]. congruence. }
    exists self'. split; [by rewrite <- Hfalse|]. split_and!.
    + exact (Hinsert Hfalse Hspan).
    + exact (proj1 (Hkept _ 95 Hhello Hfresh)).
    + exact (Hgone _ 90 Hbye Hold).
Defined.

Lemma expired_entry_still_duplicate_witness :
  (metagraph stale_miner = Some (example_metagraph 100)
   ∧ request_cache stale_miner !! request_key hello = Some 90
   ∧ 90 + Config.request_cache_block_span (config stale_miner)
     < block (example_metagraph 100))
  ∧ ∃ cache',
      await (is_request_in_cache hello) stale_miner
        = (Ret true, set_request_cache cache' stale_miner)
      ∧ cache' !! request_key hello = None
      ∧ request_cache (await (is_request_in_cache hello) stale_miner).2
        !! request_key hello = None.
Proof.
  assert (H1 : metagraph stale_miner = Some (example_metagraph 100))
    by reflexivity.
  assert (H2 : request_cache stale_miner !! request_key hello = Some 90)
    by (vm_compute; reflexivity).
  assert (H3 : 90 + Config.request_cache_block_span (config stale_miner)
               < block (example_metagraph 100)) by (vm_compute; reflexivity).
  split; [by split_and! |].
  exact (expired_entry_still_duplicate hello stale_miner
           (example_metagraph 100) 90 H1 H2 H3).
Defined.

Lemma busy_miner_invariant :
  cache_invariant busy_history (request_cache busy_miner).
Proof.
  intros key b Hb. unfold busy_miner, set_request_cache in Hb.
  cbn [request_cache] in Hb.
  apply lookup_insert_Some in Hb as [[<- <-]|[_ Hb]];
    [vm_compute; reflexivity|].
  apply lookup_singleton_Some in Hb as [<- <-]. vm_compute. reflexivity.
Defined.

Lemma first_observation_kept_witness :
  (metagraph busy_miner = Some (example_metagraph 100)
   ∧ cache_invariant busy_history (request_cache busy_miner))
  ∧ ∃ self',
      await (is_request_in_cache hello) busy_miner = (Ret true, self')
      ∧ cache_invariant
          ({| obs_key := request_key hello; obs_block := 100;
              obs_duplicate := true |} :: busy_history)
          (request_cache self')
      ∧ request_cache self' !! request_key hello = Some 95.
Proof.
  assert (Hmg : metagraph busy_miner = Some (example_metagraph 100))
    by reflexivity.
  assert (Hhello : request_cache busy_miner !! request_key hello = Some 95)
    by (vm_compute; reflexivity).
  split; [split; [exact Hmg | exact busy_miner_invariant]|].
  destruct (first_observation_kept busy_history hello busy_miner
              (example_metagraph 100) Hmg busy_miner_invariant)
    as (duplicate & self' & Hcall & Hinv & Hkeep & Hdup & _).
  assert (duplicate = true) as Htrue by exact (Hdup 95 Hhello).
  exists self'. split; [by rewrite <- Htrue|].
  split; [by rewrite <- Htrue|].
  destruct (Hkeep _ 95 Hhello) as [H|[_ H]]; [exact H|].
  exfalso. vm_compute in H. discriminate H.
Defined.

Lemma fingerprint_deterministic_witness :
  messages hello = messages (request_from "plain" ["hello"])
  ∧ request_key hello = request_key (request_from "plain" ["hello"]).
Proof.
  split; [reflexivity|].
  exact (proj1 (fingerprint_deterministic hello
                  (request_from "plain" ["hello"]) eq_refl)).
Defined.

(** A request is a miss at block 100, a duplicate at block 107, still a
    duplicate at block 108 although it has expired, and a miss again at
    block 108 once that call has swept it. *)
Example replay_hello :
  (replay [(hello, example_metagraph 100); (hello, example_metagraph 107);
           (hello, example_metagraph 108); (hello, example_metagraph 108)]
          example_miner).1
  = [ {| obs_key := request_key hello; obs_block := 108; obs_duplicate := false |};
      {| obs_key := request_key hello; obs_block := 108; obs_duplicate := true |};
      {| obs_key := request_key hello; obs_block := 107; obs_duplicate := true |};
      {| obs_key := request_key hello; obs_block := 100; obs_duplicate := false |} ].
Proof. vm_compute. reflexivity. Qed.

(** ** The default chain of rules *)

Section default_chain.
Context (self : Miner) (synapse : Inference) (now : Qc).

Lemma index_None (x : string) (l : list string) : index x l = None ↔ x ∉ l.
Proof.
  induction l as [|y l IH]; cbn.
  - split; [intros _; apply not_elem_of_nil | done].
  - case_bool_decide as Hy.
    + subst y. split; [done|]. intros Hout. exfalso. apply Hout, elem_of_cons. by left.
    + rewrite fmap_None, IH, elem_of_cons. split.
      * intros Hout [->|Hin]; [done | by apply Hout].
      * intros Hout Hin. apply Hout. by right.
Qed.

Lemma index_lt (x : string) (l : list string) (i : nat) :
  index x l = Some i → (i < length l)%nat.
Proof.
  revert i. induction l as [|y l IH]; intros i; cbn; [done|].
  case_bool_decide.
  - intros [= <-]. lia.
  - destruct (index x l) as [j|]; cbn; [|done].
    intros [= <-]. specialize (IH j eq_refl). lia.
Qed.

(** The test of lines 68-72. *)
Lemma registration_test :
  negb (Config.allow_non_registered (config self))
  && match metagraph self with
     | Some mg => bool_decide (caller synapse ∉ hotkeys mg)
     | None => false
     end = true
  ↔ registration_rejects self synapse.
Proof.
  unfold registration_rejects, unregistered.
  rewrite andb_true_iff, negb_true_iff. split.
  - intros [Hallow Hout]. split; [done|].
    destruct (metagraph self) as [mg|]; [|done].
    exists mg. split; [done|]. by rewrite bool_decide_eq_true in Hout.
  - intros [Hallow (mg & -> & Hout)]. split; [done|].
    by rewrite bool_decide_eq_true.
Qed.

Lemma permit_rule_off :
  Config.force_validator_permit (config self) = false →
  validator_permit_rule self synapse = Ret None.
Proof. intros H. unfold validator_permit_rule. by rewrite H. Qed.

Lemma permit_rule_registered permit :
  Config.force_validator_permit (config self) = true →
  registered_with permit self synapse →
  validator_permit_rule self synapse
  = Ret (if permit then None else Some (true, "validator permit required")).
Proof.
  intros Hforce (mg & uid & Hmg & Huid & Hpermit).
  unfold validator_permit_rule. fold (caller synapse).
  rewrite Hforce, Hmg, Huid, Hpermit. by destruct permit.
Qed.

Lemma permit_rule_unregistered :
  Config.force_validator_permit (config self) = true →
  unregistered self synapse →
  validator_permit_rule self synapse
  = Ret (Some (true, "validator permit required, but hotkey not registered")).
Proof.
  intros Hforce (mg & Hmg & Hout). apply index_None in Hout.
  unfold validator_permit_rule. fold (caller synapse).
  by rewrite Hforce, Hmg, Hout.
Qed.

Lemma permit_rule_passes :
  permit_passes self synapse → validator_permit_rule self synapse = Ret None.
Proof.
  intros [Hoff|Hreg]; [by apply permit_rule_off|].
  destruct (Config.force_validator_permit (config self)) eqn:Hforce.
  - by rewrite (permit_rule_registered true).
  - by apply permit_rule_off.
Qed.

(** Lines 60-82 when no rule before the request period matches. *)
Lemma default_blacklist_reaches_period :
  ¬ whitelisted self synapse → ¬ blacklisted self synapse →
  ¬ registration_rejects self synapse →
  permit_passes self synapse →
  default_blacklist self synapse now = request_period self synapse now.
Proof.
  intros Hwhite Hblack Hreg Hpermit. unfold default_blacklist.
  fold (caller synapse).
  rewrite (bool_decide_eq_false_2 _ Hwhite), (bool_decide_eq_false_2 _ Hblack).
  destruct (_ && _) eqn:Htest.
  - by apply registration_test in Htest.
  - by rewrite permit_rule_passes.
Qed.

(** The code follows the documented chain. *)
Lemma default_blacklist_follows_chain decision :
  documented_chain self synapse now decision →
  default_blacklist self synapse now = Ret decision.
Proof.
  intros Hchain. destruct Hchain as
    [Hwhite | Hwhite Hblack | Hwhite Hblack Hreg
    | Hwhite Hblack Hreg Hforce Hmissing | Hwhite Hblack Hreg Hforce Hunreg
    | first rest Hwhite Hblack Hreg Hpermit Hstamps Hfast
    | Hwhite Hblack Hreg Hpermit Hslow].
  - unfold default_blacklist. fold (caller synapse).
    by rewrite (bool_decide_eq_true_2 _ Hwhite).
  - unfold default_blacklist. fold (caller synapse).
    by rewrite (bool_decide_eq_false_2 _ Hwhite), (bool_decide_eq_true_2 _ Hblack).
  - unfold default_blacklist. fold (caller synapse).
    rewrite (bool_decide_eq_false_2 _ Hwhite), (bool_decide_eq_false_2 _ Hblack).
    apply registration_test in Hreg. by rewrite Hreg.
  - unfold default_blacklist. fold (caller synapse).
    rewrite (bool_decide_eq_false_2 _ Hwhite), (bool_decide_eq_false_2 _ Hblack).
    destruct (_ && _) eqn:Htest; [by apply registration_test in Htest|].
    by rewrite (permit_rule_registered false).
  - unfold default_blacklist. fold (caller synapse).
    rewrite (bool_decide_eq_false_2 _ Hwhite), (bool_decide_eq_false_2 _ Hblack).
    destruct (_ && _) eqn:Htest; [by apply registration_test in Htest|].
    by rewrite permit_rule_unregistered.
  - rewrite default_blacklist_reaches_period by done.
    unfold request_period. fold (caller synapse). rewrite Hstamps.
    fold (limit self). by rewrite (bool_decide_eq_true_2 _ Hfast).
  - rewrite default_blacklist_reaches_period by done.
    unfold request_period. fold (caller synapse).
    destruct Hslow as [->|(first & rest & -> & Hslow)]; [done|].
    fold (limit self). by rewrite (bool_decide_eq_false_2 _ Hslow).
Qed.

(** On a consistent miner the chain decides every request. *)
Lemma documented_chain_total :
  consistent self → ∃ decision, documented_chain self synapse now decision.
Proof.
  intros [(mg & Hmg & Hlen) Hstamps].
  destruct (decide (caller synapse ∈ Config.whitelist (config self)))
    as [?|Hwhite]; [eexists; by apply chain_whitelist|].
  destruct (decide (caller synapse ∈ Config.blacklist (config self)))
    as [?|Hblack]; [eexists; by apply chain_blacklist|].
  destruct (index (caller synapse) (hotkeys mg)) as [uid|] eqn:Huid.
  - assert (Hreg : ¬ registration_rejects self synapse).
    { intros [_ (mg' & Hmg' & Hout)]. apply index_None in Hout. congruence. }
    assert (Hsome : is_Some (validator_permit mg !! uid)).
    { apply lookup_lt_is_Some. rewrite Hlen. by eapply index_lt. }
    destruct Hsome as [permit Hpermit].
    assert (Hwith : registered_with permit self synapse) by (by exists mg, uid).
    destruct (Config.force_validator_permit (config self)) eqn:Hforce, permit;
      try (eexists; by apply chain_permit_missing).
    all: assert (Hpass : permit_passes self synapse)
           by (first [by left | by right]).
    all: destruct (request_timestamps self !! caller synapse)
           as [[|first rest]|] eqn:Hts;
         [by apply Hstamps in Hts | | eexists; apply chain_passed; eauto].
    all: destruct (decide (now - first < limit self)%Qc);
         [eexists; by eapply chain_rate_limit
         | eexists; apply chain_passed; eauto 10].
  - apply index_None in Huid.
    assert (Hunreg : unregistered self synapse) by (by exists mg).
    destruct (Config.allow_non_registered (config self)) eqn:Hallow;
      [|eexists; by apply chain_registration].
    assert (Hreg : ¬ registration_rejects self synapse).
    { intros [? _]. congruence. }
    destruct (Config.force_validator_permit (config self)) eqn:Hforce;
      [eexists; by apply chain_permit_unregistered|].
    assert (Hpass : permit_passes self synapse) by (by left).
    destruct (request_timestamps self !! caller synapse)
      as [[|first rest]|] eqn:Hts;
      [by apply Hstamps in Hts | | eexists; apply chain_passed; eauto].
    destruct (decide (now - first < limit self)%Qc);
      [eexists; by eapply chain_rate_limit
      | eexists; apply chain_passed; eauto 10].
Qed.

End default_chain.

Lemma frequency_reason_not_empty self synapse stamps :
  frequency_reason self synapse stamps ≠ "".
Proof. unfold frequency_reason. by destruct (caller synapse). Qed.

(** On a consistent miner the default chain returns a well-formed
    decision. *)
Lemma default_blacklist_well_formed self synapse now :
  consistent self →
  ∃ verdict reason,
    default_blacklist self synapse now = Ret (verdict, reason) ∧ reason ≠ "".
Proof.
  intros Hself.
  destruct (documented_chain_total self synapse now Hself) as [[verdict reason] Hchain].
  exists verdict, reason. split; [by apply default_blacklist_follows_chain|].
  inversion Hchain; subst; try done. apply frequency_reason_not_empty.
Qed.

(** C5: [default_blacklist] takes the verdict of the first rule that
    matches, in the order whitelist, blacklist, registration, validator
    permit, request period, and allows otherwise.  So a caller on both lists
    is allowed, and an unregistered caller on neither list is rejected as
    not registered when [allow_non_registered] is off, whatever timestamps
    are recorded and whatever the time. *)
Theorem default_blacklist_first_match self synapse now :
  (∀ decision, documented_chain self synapse now decision →
     default_blacklist self synapse now = Ret decision)
  ∧ (whitelisted self synapse → blacklisted self synapse →
     default_blacklist self synapse now = Ret (false, "whitelisted hotkey"))
  ∧ (¬ whitelisted self synapse → ¬ blacklisted self synapse →
     Config.allow_non_registered (config self) = false →
     unregistered self synapse →
     default_blacklist self synapse now = Ret (true, "hotkey not registered")).
Proof.
  split_and!.
  - apply default_blacklist_follows_chain.
  - intros Hwhite _. apply default_blacklist_follows_chain.
    by apply chain_whitelist.
  - intros Hwhite Hblack Hallow Hunreg. apply default_blacklist_follows_chain.
    by apply chain_registration.
Qed.

Lemma default_blacklist_first_match_witness :
  (whitelisted example_miner (request_from "vip" ["hi"])
   ∧ blacklisted example_miner (request_from "vip" ["hi"])
   ∧ default_blacklist example_miner (request_from "vip" ["hi"]) (Qc_of_Z 1030)
     = Ret (false, "whitelisted hotkey"))
  ∧ (¬ whitelisted example_miner (request_from "stranger" ["hi"])
     ∧ ¬ blacklisted example_miner (request_from "stranger" ["hi"])
     ∧ Config.allow_non_registered (config example_miner) = false
     ∧ unregistered example_miner (request_from "stranger" ["hi"])
     ∧ default_blacklist example_miner (request_from "stranger" ["hi"])
         (Qc_of_Z 1030)
       = Ret (true, "hotkey not registered")).
Proof.
  assert (H1 : whitelisted example_miner (request_from "vip" ["hi"]))
    by (unfold whitelisted; by_computation).
  assert (H2 : blacklisted example_miner (request_from "vip" ["hi"]))
    by (unfold blacklisted; by_computation).
  assert (H3 : ¬ whitelisted example_miner (request_from "stranger" ["hi"]))
    by (unfold whitelisted; by_computation).
  assert (H4 : ¬ blacklisted example_miner (request_from "stranger" ["hi"]))
    by (unfold blacklisted; by_computation).
  assert (H5 : unregistered example_miner (request_from "stranger" ["hi"])).
  { exists (example_metagraph 100). split; [reflexivity | by_computation]. }
  split.
  - split_and!; [exact H1 | exact H2 |].
    exact (proj1 (proj2 (default_blacklist_first_match example_miner
                           (request_from "vip" ["hi"]) (Qc_of_Z 1030))) H1 H2).
  - split_and!; [exact H3 | exact H4 | reflexivity | exact H5 |].
    exact (proj2 (proj2 (default_blacklist_first_match example_miner
                           (request_from "stranger" ["hi"]) (Qc_of_Z 1030)))
             H3 H4 eq_refl H5).
Defined.

(** C7: with [min_request_period] of one minute and no earlier rule
    matching, a caller whose first recorded timestamp (the earliest, stamps
    being kept in order) is less than 60 seconds old is rejected, with a
    reason that names the caller, the number of recorded requests and the
    period; when it is more than 60 seconds old the request passes. *)
Theorem rate_limit_one_minute self synapse now first rest :
  ¬ whitelisted self synapse → ¬ blacklisted self synapse →
  ¬ registration_rejects self synapse → permit_passes self synapse →
  request_timestamps self !! caller synapse = Some (first :: rest) →
  Config.min_request_period (config self) = 1 →
  ((now - first < Qc_of_Z 60)%Qc →
   default_blacklist self synapse now
   = Ret (true,
       caller synapse +:+ " request frequency exceeded "
         +:+ pretty (length (first :: rest))
         +:+ " requests in 1 minutes."))
  ∧ ((Qc_of_Z 60 < now - first)%Qc →
     default_blacklist self synapse now = Ret (false, "passed blacklist")).
Proof.
  intros Hwhite Hblack Hreg Hpermit Hstamps Hperiod.
  rewrite default_blacklist_reaches_period by done.
  unfold request_period. fold (caller synapse).
  rewrite Hstamps, Hperiod. change (1 * 60) with 60. split.
  - intros Hfast. by rewrite (bool_decide_eq_true_2 _ Hfast).
  - intros Hslow. rewrite bool_decide_eq_false_2; [done|].
    apply Qcle_not_lt, Qclt_le_weak, Hslow.
Qed.

(** "validator" first asked at second 1000: a request at 1030 is rejected,
    one at 1061 passes. *)
Lemma rate_limit_one_minute_witness :
  (¬ whitelisted example_miner hello ∧ ¬ blacklisted example_miner hello
   ∧ ¬ registration_rejects example_miner hello
   ∧ permit_passes example_miner hello
   ∧ request_timestamps example_miner !! caller hello
     = Some [Qc_of_Z 1000; Qc_of_Z 1010]
   ∧ Config.min_request_period (config example_miner) = 1
   ∧ (Qc_of_Z 1030 - Qc_of_Z 1000 < Qc_of_Z 60)%Qc
   ∧ (Qc_of_Z 60 < Qc_of_Z 1061 - Qc_of_Z 1000)%Qc)
  ∧ default_blacklist example_miner hello (Qc_of_Z 1030)
    = Ret (true, "validator request frequency exceeded 2 requests in 1 minutes.")
  ∧ default_blacklist example_miner hello (Qc_of_Z 1061)
    = Ret (false, "passed blacklist").
Proof.
  assert (H1 : ¬ whitelisted example_miner hello)
    by (unfold whitelisted; by_computation).
  assert (H2 : ¬ blacklisted example_miner hello)
    by (unfold blacklisted; by_computation).
  assert (H3 : ¬ registration_rejects example_miner hello).
  { intros [Hallow (mg & [= <-] & Hout)]. revert Hout.
    apply (bool_decide_unpack _). vm_compute. exact I. }
  assert (H4 : permit_passes example_miner hello).
  { right. exists (example_metagraph 100), O. by split_and!. }
  assert (H5 : request_timestamps example_miner !! caller hello
               = Some [Qc_of_Z 1000; Qc_of_Z 1010]) by (vm_compute; reflexivity).
  assert (H6 : (Qc_of_Z 1030 - Qc_of_Z 1000 < Qc_of_Z 60)%Qc) by by_computation.
  assert (H7 : (Qc_of_Z 60 < Qc_of_Z 1061 - Qc_of_Z 1000)%Qc) by by_computation.
  split; [by split_and! |]. split.
  - exact (proj1 (rate_limit_one_minute example_miner hello (Qc_of_Z 1030)
                    (Qc_of_Z 1000) [Qc_of_Z 1010] H1 H2 H3 H4 H5 eq_refl) H6).
  - exact (proj2 (rate_limit_one_minute example_miner hello (Qc_of_Z 1061)
                    (Qc_of_Z 1000) [Qc_of_Z 1010] H1 H2 H3 H4 H5 eq_refl) H7).
Defined.

(** ** The blacklist wrapper *)

Lemma blacklist_on_raise self func synapse now e :
  func synapse = Raise e →
  (blacklist self func synapse now).1 = (finally self synapse now
     match default_blacklist self synapse now with
     | Ret verdict => if is_NotImplementedError e || is_Exception e
                      then Some verdict else None
     | Raise _ => None
     end).1.
Proof.
  intros Hfunc. unfold blacklist, try_override, handle. rewrite Hfunc.
  destruct e; cbn [is_NotImplementedError is_Exception orb];
    destruct (default_blacklist self synapse now);
    by destruct (finally _ _ _ _).
Qed.

Lemma finally_None self synapse now :
  (finally self synapse now None).1 = default_blacklist self synapse now.
Proof.
  unfold finally. by destruct (default_blacklist self synapse now) as [[? ?]|].
Qed.

Lemma finally_Some self synapse now verdict :
  (finally self synapse now (Some verdict)).1 = Ret verdict.
Proof. unfold finally. by destruct verdict. Qed.

Lemma blacklist_on_return self func synapse now r :
  func synapse = Ret r →
  (blacklist self func synapse now).1
  = match r with
    | Bare (Some verdict) => Ret (verdict, "no reason provided")
    | Pair (Some verdict) reason => Ret (verdict, reason)
    | Bare None | Pair None _ => default_blacklist self synapse now
    end.
Proof.
  intros Hfunc. unfold blacklist, try_override. rewrite Hfunc.
  destruct r as [[v|]|[v|] reason]; cbn [mbind option_bind];
    (rewrite <- finally_None || rewrite <- (finally_Some self synapse now));
    by destruct (finally _ _ _ _).
Qed.

(** Whatever the override raises, the decision is the default chain's. *)
Lemma blacklist_raise_default self func synapse now e :
  func synapse = Raise e →
  (blacklist self func synapse now).1 = default_blacklist self synapse now.
Proof.
  intros Hfunc. rewrite (blacklist_on_raise _ _ _ _ _ Hfunc).
  destruct (default_blacklist self synapse now) as [verdict|e'] eqn:Hdefault.
  - destruct (_ || _); [by rewrite finally_Some | by rewrite finally_None].
  - by rewrite finally_None.
Qed.

(** C4, as the code has it: on a consistent miner [blacklist], and so
    [Miner.blacklist], never raises; when the override raises (not
    implemented or anything else) or returns no verdict, the decision is
    that of [default_blacklist], which is well formed; a bare verdict gets
    the reason "no reason provided"; a (verdict, reason) pair of the override
    is returned as it is, so the reason is empty only when the override's
    own reason is. *)
Theorem blacklist_falls_back self func synapse now :
  consistent self →
  (∃ verdict reason,
     (blacklist self func synapse now).1 = Ret (verdict, reason))
  ∧ (∀ e, func synapse = Raise e →
       (blacklist self func synapse now).1 = default_blacklist self synapse now)
  ∧ (∀ reason,
       func synapse = Ret (Bare None) ∨ func synapse = Ret (Pair None reason) →
       (blacklist self func synapse now).1 = default_blacklist self synapse now)
  ∧ (∀ verdict, func synapse = Ret (Bare (Some verdict)) →
       (blacklist self func synapse now).1 = Ret (verdict, "no reason provided"))
  ∧ (∀ verdict reason, func synapse = Ret (Pair (Some verdict) reason) →
       (blacklist self func synapse now).1 = Ret (verdict, reason))
  ∧ well_formed (default_blacklist self synapse now)
  ∧ (Miner_blacklist self synapse now).1 = default_blacklist self synapse now
  ∧ ((∀ verdict, func synapse ≠ Ret (Pair (Some verdict) "")) →
     well_formed (blacklist self func synapse now).1).
Proof.
  intros Hself.
  destruct (default_blacklist_well_formed self synapse now Hself)
    as (v0 & r0 & Hdefault & Hr0).
  assert (Hwf : well_formed (default_blacklist self synapse now))
    by (by rewrite Hdefault).
  split_and!.
  - destruct (func synapse) as [r|e] eqn:Hfunc.
    + rewrite (blacklist_on_return _ _ _ _ _ Hfunc).
      destruct r as [[v|]|[v|] reason]; eauto.
    + rewrite (blacklist_raise_default _ _ _ _ _ Hfunc). eauto.
  - intros e Hfunc. by apply blacklist_raise_default with e.
  - intros reason [Hfunc|Hfunc]; by rewrite (blacklist_on_return _ _ _ _ _ Hfunc).
  - intros verdict Hfunc. by rewrite (blacklist_on_return _ _ _ _ _ Hfunc).
  - intros verdict reason Hfunc. by rewrite (blacklist_on_return _ _ _ _ _ Hfunc).
  - exact Hwf.
  - by apply blacklist_raise_default
      with (NotImplementedError "blacklist not implemented in subclass").
  - intros Hnot. destruct (func synapse) as [r|e] eqn:Hfunc.
    + rewrite (blacklist_on_return _ _ _ _ _ Hfunc).
      destruct r as [[v|]|[v|] reason]; try done.
      cbn. intros ->. by apply (Hnot v).
    + by rewrite (blacklist_raise_default _ _ _ _ _ Hfunc).
Qed.

Lemma example_miner_consistent : consistent example_miner.
Proof.
  split.
  - exists (example_metagraph 100). by split.
  - intros who. cbn. destruct (decide (who = "validator")) as [->|Hne].
    + by rewrite lookup_singleton_eq.
    + by rewrite lookup_singleton_ne.
Defined.

(** An override that answers [(True, "")] gets its empty reason back. *)
Lemma override_reason_may_be_empty :
  consistent example_miner
  ∧ (blacklist example_miner silent_override hello (Qc_of_Z 1030)).1
    = Ret (true, "")
  ∧ ¬ well_formed (blacklist example_miner silent_override hello (Qc_of_Z 1030)).1.
Proof.
  split; [exact example_miner_consistent|].
  assert (H : (blacklist example_miner silent_override hello (Qc_of_Z 1030)).1
              = Ret (true, "")) by (vm_compute; reflexivity).
  split; [exact H|]. rewrite H. cbn. by intros Hne.
Qed.

Lemma blacklist_falls_back_witness :
  consistent example_miner
  ∧ (Miner_blacklist example_miner hello (Qc_of_Z 1061)).1
    = default_blacklist example_miner hello (Qc_of_Z 1061)
  ∧ well_formed (Miner_blacklist example_miner hello (Qc_of_Z 1061)).1.
Proof.
  split; [exact example_miner_consistent|].
  destruct (blacklist_falls_back example_miner _blacklist hello (Qc_of_Z 1061)
              example_miner_consistent)
    as (_ & _ & _ & _ & _ & _ & Hminer & Hwf).
  split; [exact Hminer|]. apply Hwf. intros verdict. discriminate.
Defined.

Example Miner_blacklist_passes :
  Miner_blacklist example_miner hello (Qc_of_Z 1061)
  = (Ret (false, "passed blacklist"),
     [log_trace "run blacklist function";
      log_trace "blacklisted: False, reason: passed blacklist"]).
Proof. vm_compute. reflexivity. Qed.

Example Miner_blacklist_rejects :
  Miner_blacklist reporting_miner (request_from "spammer" ["hi"]) (Qc_of_Z 1061)
  = (Ret (true, "blacklisted hotkey"),
     [log_trace "run blacklist function";
      log_trace "blacklisted: True, reason: blacklisted hotkey";
      wandb_blacklisted 1 "blacklisted hotkey" "spammer"]).
Proof. vm_compute. reflexivity. Qed.

(** ** The epoch loop *)

Section epoch_loop.
Context (w : World).

Lemma keeps_ret {A} (a : A) : keeps (mret a).
Proof. by intros st. Qed.

Lemma keeps_bind {A B} (m : M A) (k : A -> M B) :
  keeps m → (∀ a, keeps (k a)) → keeps (mbind m k).
Proof.
  intros Hm Hk st. unfold mbind. specialize (Hm st).
  destruct (m st) as [a st1|e st1|]; [|done..].
  specialize (Hk a st1). destruct (k a st1) as [b st2|e st2|]; [| |done].
  all: destruct Hm, Hk; split; congruence.
Qed.

Lemma keeps_call {A} (oracle : nat -> outcome A) : keeps (call oracle).
Proof. intros st. unfold call. by destruct (oracle _). Qed.

Lemma keeps_read_should_exit : keeps (read_should_exit w).
Proof. by intros st. Qed.

Lemma keeps_get_loop : keeps get_loop.
Proof. by intros st. Qed.

Lemma keeps_write_log ev : keeps (modify (write_log ev)).
Proof. by intros st. Qed.

Lemma keeps_wait_for_epoch fuel current_block :
  keeps (wait_for_epoch fuel w current_block).
Proof.
  revert current_block. induction fuel as [|fuel IH]; intros current_block.
  - cbn [wait_for_epoch]. apply keeps_bind; [apply keeps_get_loop|].
    intros st. case_bool_decide; [by intros ?|apply keeps_ret].
  - cbn [wait_for_epoch]. apply keeps_bind; [apply keeps_get_loop|].
    intros st. case_bool_decide; [|apply keeps_ret].
    apply keeps_bind; [apply keeps_call|]. intros _.
    apply keeps_bind; [apply keeps_call|]. intros current_block'.
    apply keeps_bind; [apply keeps_read_should_exit|]. intros exit.
    destruct exit; [apply keeps_ret | apply IH].
Qed.

Lemma keeps_modify_miner (f : Loop -> Miner) :
  keeps (modify (λ st, set_miner (f st) st)).
Proof. by intros st. Qed.

Lemma counts_bind {A B} (m : M A) (k : A -> M B) :
  keeps m → (∀ a, counts (k a)) → counts (mbind m k).
Proof.
  intros Hm Hk st. unfold mbind. specialize (Hm st).
  destruct (m st) as [a st1|e st1|]; [|done..].
  specialize (Hk a st1). destruct (k a st1) as [b st2|e st2|]; [| |done].
  all: destruct Hm, Hk; split; congruence.
Qed.

(** An epoch adds one to [step] when it completes and nothing when it
    fails; it never touches the axon. *)
Lemma epoch_counts fuel : counts (epoch fuel w).
Proof.
  unfold epoch.
  apply counts_bind; [apply keeps_call|]. intros current_block.
  apply counts_bind; [apply keeps_wait_for_epoch|]. intros _.
  apply counts_bind; [apply keeps_call|]. intros b.
  apply counts_bind; [apply keeps_modify_miner|]. intros _.
  apply counts_bind; [apply keeps_call|]. intros snapshot.
  apply counts_bind; [apply keeps_get_loop|]. intros st.
  apply counts_bind; [apply keeps_write_log|]. intros _.
  apply counts_bind.
  { destruct (Config.wandb_on _); [|apply keeps_ret].
    apply keeps_bind; [apply keeps_call|]. intros _. apply keeps_write_log. }
  intros _. apply counts_bind.
  { destruct (negb _); [apply keeps_call | apply keeps_ret]. }
  intros _ st'. by cbn.
Qed.

(** The loop never touches the axon, and [step] never goes down. *)
Lemma main_loop_axon fuel st :
  match main_loop fuel w st with
  | Done _ st' | Threw _ st' =>
      axon_running st' = axon_running st ∧ step st ≤ step st'
  | OutOfFuel => True
  end.
Proof.
  revert st. induction fuel as [|fuel IH]; intros st.
  - cbn [main_loop]. unfold mbind, read_should_exit.
    destruct (should_exit w (clock st)); cbn; [by split|done].
  - cbn [main_loop]. unfold mbind at 1. unfold read_should_exit.
    destruct (should_exit w (clock st)); cbn; [by split|].
    unfold mbind. pose proof (epoch_counts fuel (tick st)) as Hepoch.
    destruct (epoch fuel w (tick st)) as [[] st1|e st1|]; [| |done].
    + specialize (IH st1). destruct Hepoch as [Hstep Haxon].
      cbn in Hstep, Haxon.
      destruct (main_loop fuel w st1) as [[] st2|e st2|]; [| |done].
      all: destruct IH; split; [congruence | lia].
    + destruct Hepoch as [Hstep Haxon]. cbn in Hstep, Haxon.
      split; [congruence | lia].
Qed.

(** A failing epoch ends the loop: the exception leaves [main_loop]. *)
Lemma main_loop_failing_epoch fuel st e st' :
  should_exit w (clock st) = false →
  epoch fuel w (tick st) = Threw e st' →
  main_loop (S fuel) w st = Threw e st'.
Proof.
  intros Hflag Hepoch. cbn [main_loop].
  unfold mbind at 1. unfold read_should_exit. rewrite Hflag.
  unfold mbind. by rewrite Hepoch.
Qed.

End epoch_loop.

(** Whenever [run] returns, by the flag or after an exception, the axon it
    started is still running. *)
Lemma run_returns_with_axon_running fuel w self st :
  run fuel w self = Returned st → axon_running st = true.
Proof.
  unfold run. destruct (negb (is_hotkey_registered w)); [done|].
  unfold call. destruct (get_current_block w _) as [b|e]; [|done].
  match goal with
  | |- context [main_loop fuel w ?st6] =>
      pose proof (main_loop_axon w fuel st6) as Hloop;
      destruct (main_loop fuel w st6) as [[] st'|e st'|]
  end; [| |done].
  - intros [= <-]. by destruct Hloop as [-> _].
  - destruct Hloop as [Haxon _].
    destruct e; cbn [is_Exception]; try done; intros [= <-]; exact Haxon.
Qed.

(** On a healthy chain the loop is still running after two epochs. *)
Example run_goes_on :
  run 2 (flaky_world 1000) example_miner = StillRunning.
Proof. vm_compute. reflexivity. Qed.

(** C2: an exception raised in one epoch is to be logged and the loop is
    to go on with the next epoch.  The code logs it and stops: the [try] of
    [run] encloses the whole [while], so the chain query that fails in the
    second epoch ends the loop.  On a chain that answers every other query
    and with [should_exit] never set, [run] logs the exception and returns
    after 9 interactions, whatever number of further epochs it is given;
    [step] is 1, counted for the completed first epoch and not for the
    failed second one, and the axon is left running. *)
Theorem run_ends_at_failed_epoch :
  ∀ fuel, ∃ st,
    run (2 + fuel) (flaky_world 8) example_miner = Returned st
    ∧ step st = 1 ∧ clock st = 9%nat ∧ axon_running st = true
    ∧ list.last (logged st)
      = Some (log_error "Traceback: chain RPC timed out").
Proof.
  intros [|fuel]; evaluate_run.
Qed.

(** C3: on both ways of stopping, the flag and the interrupt, the loop is
    to exit with the axon stopped and no error.  The code stops the axon on
    one of them only: when [should_exit] is seen (here during the polling
    wait) the epoch under way is completed, the loop exits and [run] returns
    with the axon still running, no [axon.stop()] being on that path; when
    the keyboard interrupt arrives, the axon is stopped and [exit()] ends
    the process. *)
Theorem axon_stopped_on_interrupt_only :
  (∀ fuel, ∃ st,
     run (2 + fuel) cancelled_world example_miner = Returned st
     ∧ axon_running st = true ∧ step st = 1 ∧ clock st = 10%nat)
  ∧ (∀ fuel, ∃ st,
       run (2 + fuel) interrupted_world example_miner = Raised SystemExit st
       ∧ axon_running st = false
       ∧ list.last (logged st)
         = Some (log_success "Miner killed by keyboard interrupt.")).
Proof.
  split; intros [|fuel]; evaluate_run.
Qed.

(** ** The [_predict] wrapper *)

(** With the request cache in use [_predict] raises for every request, on
    every miner, and never calls [predict]: line 193 tests the coroutine
    object that the call of the [async def] returns, not the result of its
    body, which never runs. *)
Lemma predict_always_rejects predict synapse self :
  Config.use_request_cache (config self) = true →
  _predict predict synapse self
  = (Raise (ValueError
       ("Blacklisted: Request sent recently in last "
        +:+ pretty (Config.request_cache_block_span (config self))
        +:+ " blocks.")), self).
Proof. intros Huse. unfold _predict. by rewrite Huse. Qed.

(** C1: with the request cache in use, [_predict] is to reject a request
    exactly when [is_request_in_cache] reports its fingerprint as a
    duplicate, and to hand it to [predict] otherwise.  The code rejects a
    request that is no duplicate: on a miner with an empty cache the awaited
    [is_request_in_cache] reports no duplicate for ["hello"], and yet
    [_predict] raises the [ValueError], without calling [predict] and
    without recording the request. *)
Theorem predict_rejects_first_request :
  (await (is_request_in_cache hello) example_miner).1 = Ret false
  ∧ _predict echo hello example_miner
    = (Raise (ValueError
         "Blacklisted: Request sent recently in last 7 blocks."),
       example_miner)
  ∧ request_cache (_predict echo hello example_miner).2 = ∅.
Proof. split_and!; vm_compute; reflexivity. Qed.

(** ** Further properties of the three files *)

(** X3: an entry recorded at block [B] is still in the cache after any
    sequence of calls made at blocks up to [B] plus the span. *)
Theorem entry_survives_replay calls self key B :
  request_cache self !! key = Some B →
  Forall (λ call : Inference * Metagraph,
            block call.2 ≤ B + Config.request_cache_block_span (config self))
         calls →
  request_cache (replay calls self).2 !! key = Some B.
Proof.
  revert self. induction calls as [|[synapse mg] later IH]; intros self HB Hall.
  - done.
  - apply Forall_cons_1 in Hall as [Hnow Hlater]. cbn [snd] in Hnow.
    cbn [replay].
    set (self0 := {| config := config self; request_cache := request_cache self;
                     metagraph := Some mg;
                     request_timestamps := request_timestamps self;
                     last_epoch_block := last_epoch_block self |}).
    assert (Hmg : metagraph self0 = Some mg) by done.
    assert (Hkept : request_cache (await (is_request_in_cache synapse) self0).2
                    !! key = Some B).
    { apply (lookup_after_call synapse self0 mg key B Hmg).
      split; [by left | cbn; lia]. }
    rewrite (await_is_request_in_cache _ _ _ Hmg) in Hkept |- *.
    cbn [snd] in Hkept.
    specialize (IH _ Hkept Hlater).
    destruct (replay later _) as [older self2]. exact IH.
Qed.

Lemma entry_survives_replay_witness :
  request_cache stale_miner !! request_key hello = Some 90
  ∧ request_cache
      (replay [(request_from "plain" ["other"], example_metagraph 95);
               (hello, example_metagraph 97)] stale_miner).2
    !! request_key hello = Some 90.
Proof.
  assert (H : request_cache stale_miner !! request_key hello = Some 90)
    by (vm_compute; reflexivity).
  split; [exact H|].
  apply (entry_survives_replay _ stale_miner (request_key hello) 90 H).
  repeat constructor; vm_compute; discriminate.
Defined.

Lemma replay_keeps_invariant_witness :
  cache_invariant [] (request_cache example_miner)
  ∧ cache_invariant
      ((replay [(hello, example_metagraph 100); (hello, example_metagraph 107)]
               example_miner).1 ++ [])
      (request_cache
         (replay [(hello, example_metagraph 100); (hello, example_metagraph 107)]
                 example_miner).2).
Proof.
  assert (H : cache_invariant [] (request_cache example_miner)).
  { intros key b Hb. cbn in Hb. by rewrite lookup_empty in Hb. }
  split; [exact H|].
  exact (replay_keeps_invariant
           [(hello, example_metagraph 100); (hello, example_metagraph 107)]
           example_miner [] H).
Defined.

(** X4: [step] counts the completed epochs: an epoch that completes adds
    one, an epoch that raises adds nothing. *)
Theorem step_counts_completed_epochs (w : World) (fuel : nat) (st : Loop) :
  match epoch fuel w st with
  | Done _ st' => step st' = step st + 1
  | Threw _ st' => step st' = step st
  | OutOfFuel => True
  end.
Proof.
  pose proof (epoch_counts w fuel st) as H.
  destruct (epoch fuel w st) as [[] st'|e st'|]; [| |done]; by destruct H.
Qed.

(** ** The background thread *)

Lemma outstanding_app running events events' :
  Supervisor.outstanding running (events ++ events')
  = Supervisor.outstanding running events
    ≫= λ running', Supervisor.outstanding running' events'.
Proof.
  revert running. induction events as [|ev events IH]; intros running; [done|].
  destruct ev as [msg|id|id timeout]; cbn [app Supervisor.outstanding].
  - apply IH.
  - destruct running; [done | apply IH].
  - destruct running as [id'|]; [|done]. case_bool_decide; [apply IH | done].
Qed.

Lemma constructed_settled : settled Supervisor.constructed.
Proof. split_and!; cbn; done. Qed.

Lemma run_in_background_thread_settled sys :
  settled sys → settled (Supervisor.run_in_background_thread sys).
Proof.
  intros Hsys. unfold Supervisor.run_in_background_thread.
  destruct (Supervisor.is_running (Supervisor.self sys)) eqn:Hr; cbn [negb];
    [exact Hsys|].
  destruct Hsys as (Htrace & _ & _). rewrite Hr in Htrace.
  split_and!; cbn.
  - rewrite outstanding_app, Htrace. done.
  - eauto.
  - done.
Qed.

Lemma stop_run_thread_settled sys :
  settled sys →
  ∃ sys', Supervisor.stop_run_thread sys = (Ret (), sys') ∧ settled sys'.
Proof.
  intros Hsys. unfold Supervisor.stop_run_thread.
  destruct (Supervisor.is_running (Supervisor.self sys)) eqn:Hr;
    [|by exists sys].
  destruct Hsys as (Htrace & Hrun & _). rewrite Hr in Htrace.
  destruct (Hrun Hr) as [[id Hid] Hflag]. rewrite Hid in Htrace |- *.
  eexists. split; [reflexivity|]. split_and!; cbn.
  - rewrite outstanding_app, Htrace. cbn.
    by rewrite bool_decide_eq_true_2.
  - done.
  - intros _. split; eauto.
Qed.

Lemma invoke_settled m sys :
  settled sys →
  ∃ sys', Supervisor.invoke m sys = (Ret (), sys') ∧ settled sys'.
Proof.
  intros Hsys. destruct m; cbn [Supervisor.invoke].
  - eexists. split; [reflexivity|]. by apply run_in_background_thread_settled.
  - by apply stop_run_thread_settled.
  - eexists. split; [reflexivity|]. by apply run_in_background_thread_settled.
  - by apply stop_run_thread_settled.
Qed.

Lemma invoke_all_settled ms sys :
  settled sys →
  ∃ sys', Supervisor.invoke_all ms sys = (Ret (), sys') ∧ settled sys'.
Proof.
  revert sys. induction ms as [|m ms IH]; intros sys Hsys.
  - by exists sys.
  - destruct (invoke_settled m sys Hsys) as (sys1 & Hm & Hsys1).
    cbn [Supervisor.invoke_all]. rewrite Hm. by apply IH.
Qed.

(** X5: whatever sequence of [run_in_background_thread],
    [stop_run_thread], [__enter__] and [__exit__] is called on a miner as
    constructed, no call raises: [stop_run_thread] never finds
    [self.thread] missing when it joins it. *)
Theorem supervisor_never_raises (ms : list Supervisor.method) :
  ∃ sys, Supervisor.invoke_all ms Supervisor.constructed = (Ret (), sys).
Proof.
  destruct (invoke_all_settled ms _ constructed_settled) as (sys & H & _).
  by exists sys.
Qed.

(** X6: over every sequence of calls on a miner as constructed, threads
    are started and joined in turn: a thread is started only when the one
    before it has been joined, a join names the thread started last, and
    the thread left running at the end is [self.thread] when [is_running]
    is set and none otherwise. *)
Theorem threads_start_and_join_in_turn (ms : list Supervisor.method) :
  let sys := (Supervisor.invoke_all ms Supervisor.constructed).2 in
  Supervisor.outstanding None (Supervisor.trace sys)
  = Some (if Supervisor.is_running (Supervisor.self sys)
          then Supervisor.thread (Supervisor.self sys) else None).
Proof.
  destruct (invoke_all_settled ms _ constructed_settled) as (sys & H & Hsys).
  cbn zeta. rewrite H. by destruct Hsys as (Htrace & _).
Qed.

(** X7: over every sequence of calls on a miner as constructed,
    [should_exit] is raised exactly when the miner has had a thread and is
    not running; while it is running the flag is down. *)
Theorem flag_follows_supervisor (ms : list Supervisor.method) :
  let me := Supervisor.self
              (Supervisor.invoke_all ms Supervisor.constructed).2 in
  Supervisor.should_exit me = true
  ↔ Supervisor.is_running me = false ∧ is_Some (Supervisor.thread me).
Proof.
  destruct (invoke_all_settled ms _ constructed_settled) as (sys & H & Hsys).
  cbn zeta. rewrite H. cbn [snd]. destruct Hsys as (_ & Hrun & Hidle).
  destruct (Supervisor.is_running (Supervisor.self sys)) eqn:Hr.
  - destruct (Hrun eq_refl) as [_ ->]. split; [done | by intros [? _]].
  - rewrite (Hidle eq_refl). split; [done | by intros [_ ?]].
Qed.

(** X8: whatever was called before, entering the scope of a [with] and
    leaving it leaves the miner not running, with [should_exit] raised and
    no thread unjoined, also when the miner was running before the scope
    was entered (the scope then starts no thread and joins the one it
    found). *)
Theorem scope_leaves_miner_stopped (ms : list Supervisor.method) :
  let sys := (Supervisor.invoke_all ms Supervisor.constructed).2 in
  ∃ sys',
    Supervisor.__exit__ (Supervisor.__enter__ sys) = (Ret (), sys')
    ∧ Supervisor.is_running (Supervisor.self sys') = false
    ∧ Supervisor.should_exit (Supervisor.self sys') = true
    ∧ Supervisor.outstanding None (Supervisor.trace sys') = Some None
    ∧ (Supervisor.is_running (Supervisor.self sys) = true →
       Supervisor.created sys' = Supervisor.created sys).
Proof.
  destruct (invoke_all_settled ms _ constructed_settled) as (sys & H & Hsys).
  cbn zeta. rewrite H. cbn [snd].
  pose proof (run_in_background_thread_settled sys Hsys) as Hentered.
  unfold Supervisor.__exit__, Supervisor.__enter__.
  assert (Hrunning : Supervisor.is_running
            (Supervisor.self (Supervisor.run_in_background_thread sys)) = true).
  { unfold Supervisor.run_in_background_thread.
    by destruct (Supervisor.is_running (Supervisor.self sys)) eqn:Hr. }
  destruct Hentered as (Htrace & Hrun & _).
  destruct (Hrun Hrunning) as [[id Hid] _].
  rewrite Hrunning, Hid in Htrace.
  unfold Supervisor.stop_run_thread. rewrite Hrunning, Hid.
  eexists. split; [reflexivity|]. cbn. split_and!; try done.
  - rewrite outstanding_app, Htrace. cbn. by rewrite bool_decide_eq_true_2.
  - intros Hr. unfold Supervisor.run_in_background_thread. by rewrite Hr.
Qed.

(** X9: on a miner reached by any sequence of calls, a second
    [run_in_background_thread] right after the first starts no second
    thread, and a second [stop_run_thread] right after the first joins
    nothing: each leaves the state of the first. *)
Theorem start_and_stop_are_idempotent (ms : list Supervisor.method) :
  let sys := (Supervisor.invoke_all ms Supervisor.constructed).2 in
  Supervisor.run_in_background_thread (Supervisor.run_in_background_thread sys)
  = Supervisor.run_in_background_thread sys
  ∧ Supervisor.stop_run_thread (Supervisor.stop_run_thread sys).2
    = (Ret (), (Supervisor.stop_run_thread sys).2).
Proof.
  destruct (invoke_all_settled ms _ constructed_settled) as (sys & H & Hsys).
  cbn zeta. rewrite H. cbn [snd]. split.
  - assert (Hrunning : Supervisor.is_running
              (Supervisor.self (Supervisor.run_in_background_thread sys)) = true).
    { unfold Supervisor.run_in_background_thread.
      by destruct (Supervisor.is_running (Supervisor.self sys)) eqn:Hr. }
    unfold Supervisor.run_in_background_thread at 1. by rewrite Hrunning.
  - destruct (stop_run_thread_settled sys Hsys) as (sys' & Hstop & _).
    rewrite Hstop. cbn [snd]. revert Hstop. unfold Supervisor.stop_run_thread.
    destruct (Supervisor.is_running (Supervisor.self sys)) eqn:Hr.
    + destruct (Supervisor.thread (Supervisor.self sys)); [|done].
      by intros [= <-].
    + intros [= <-]. by rewrite Hr.
Qed.

(** ** The epoch loop in a world that does not fail *)

Section calm_world.
Context (w : World) (Hcalm : calm w).

Lemma mbind_done {A B} (m : M A) (k : A -> M B) st a st1 :
  m st = Done a st1 → mbind m k st = k a st1.
Proof. intros H. unfold mbind. by rewrite H. Qed.

Lemma chain_answers : ∀ t, ∃ b, get_current_block w t = Ret b.
Proof. intros t. by destruct (Hcalm t) as (? & _). Qed.

Lemma sleep_returns : ∀ t, ∃ u, sleep w t = Ret u.
Proof. intros t. destruct (Hcalm t) as (_ & ? & _). eauto. Qed.

Lemma fetch_answers : ∀ t, ∃ s, fetch_metagraph w t = Ret s.
Proof. intros t. by destruct (Hcalm t) as (_ & _ & ? & _). Qed.

Lemma set_weights_returns : ∀ t, ∃ u, set_weights w t = Ret u.
Proof. intros t. destruct (Hcalm t) as (_ & _ & _ & ?). eauto. Qed.

(** One turn of the polling wait, as lines 85-95 have it. *)
Lemma wait_for_epoch_unfold fuel current_block st :
  wait_for_epoch fuel w current_block st
  = if bool_decide (current_block - last_epoch_block (miner st)
                    < Config.blocks_per_epoch (config (miner st)))
    then
      match fuel with
      | O => OutOfFuel
      | S fuel' =>
          match sleep w (clock st) with
          | Raise e => Threw e (tick st)
          | Ret _ =>
              match get_current_block w (S (clock st)) with
              | Raise e => Threw e (tick (tick st))
              | Ret current_block' =>
                  if should_exit w (S (S (clock st)))
                  then Done () (tick (tick (tick st)))
                  else wait_for_epoch fuel' w current_block'
                         (tick (tick (tick st)))
              end
          end
      end
    else Done () st.
Proof.
  destruct fuel as [|fuel']; cbn [wait_for_epoch];
    unfold mbind at 1; unfold get_loop at 1; case_bool_decide; try done.
  unfold mbind at 1. unfold call at 1.
  destruct (sleep w (clock st)); [|done].
  unfold mbind at 1. unfold call at 1. cbn [clock tick].
  destruct (get_current_block w (S (clock st))); [|done].
  unfold mbind at 1. unfold read_should_exit at 1. cbn [clock tick].
  by destruct (should_exit w (S (S (clock st)))).
Qed.

(** One turn of the outer loop, as lines 80-128 have it. *)
Lemma main_loop_unfold fuel st :
  main_loop fuel w st
  = if should_exit w (clock st) then Done () (tick st)
    else
      match fuel with
      | O => OutOfFuel
      | S fuel' =>
          match epoch fuel' w (tick st) with
          | Done _ st1 => main_loop fuel' w st1
          | Threw e st1 => Threw e st1
          | OutOfFuel => OutOfFuel
          end
      end.
Proof.
  destruct fuel as [|fuel']; cbn [main_loop];
    unfold mbind at 1; unfold read_should_exit at 1;
    by destruct (should_exit w (clock st)).
Qed.

(** The polling wait never raises and leaves the miner as it is. *)
Lemma wait_outcome fuel current_block st :
  match wait_for_epoch fuel w current_block st with
  | Done _ st' => (clock st ≤ clock st')%nat ∧ miner st' = miner st
  | Threw _ _ => False
  | OutOfFuel => True
  end.
Proof.
  revert current_block st. induction fuel as [|fuel IH]; intros cb st;
    rewrite wait_for_epoch_unfold; case_bool_decide; try done.
  destruct (sleep_returns (clock st)) as [u ->].
  destruct (chain_answers (S (clock st))) as [cb' ->].
  destruct (should_exit w (S (S (clock st)))).
  - split; [cbn; lia | done].
  - specialize (IH cb' (tick (tick (tick st)))).
    destruct (wait_for_epoch fuel w cb' _) as [[] st'|e st'|]; [|done..].
    destruct IH as [Hle Hminer]. cbn in Hle, Hminer. split; [lia | done].
Qed.

(** What follows the wait in an epoch completes, unless [wandb.log] is
    called and raises; the configuration stays as it is. *)
Lemma after_wait_outcome st1 :
  match
    (b <~ call (get_current_block w) ;;
     modify (λ st, set_miner (set_last_epoch_block b (miner st)) st) ;;;
     snapshot <~ call (fetch_metagraph w) ;;
     st <~ get_loop ;;
     let log := epoch_line (step st) snapshot in
     modify (write_log (log_info log)) ;;;
     (if Config.wandb_on (config (miner st))
      then call (wandb_log w) ;;; modify (write_log (wandb_line log))
      else mret ()) ;;;
     (if negb (Config.no_set_weights (config (miner st)))
      then call (set_weights w) else mret ()) ;;;
     modify (λ st, set_step (step st + 1) st)) st1
  with
  | Done _ st' =>
      (clock st1 ≤ clock st')%nat ∧ config (miner st') = config (miner st1)
  | Threw e _ =>
      Config.wandb_on (config (miner st1)) = true
      ∧ ∃ t, wandb_log w t = Raise e
  | OutOfFuel => False
  end.
Proof.
  unfold mbind at 1. unfold call at 1.
  destruct (chain_answers (clock st1)) as [b ->].
  unfold mbind at 1. unfold modify at 1.
  unfold mbind at 1. unfold call at 1. cbn [clock tick set_miner].
  destruct (fetch_answers (S (clock st1))) as [snapshot ->].
  unfold mbind at 1. unfold get_loop at 1.
  unfold mbind at 1. unfold modify at 1.
  cbn [miner tick set_miner set_last_epoch_block config].
  destruct (Config.wandb_on (config (miner st1))) eqn:Hon.
  - unfold mbind at 1 2. unfold call at 1. cbn [clock tick write_log set_miner].
    destruct (wandb_log w (S (S (clock st1)))) as [[]|e] eqn:Hlog; [|eauto].
    unfold modify at 1.
    destruct (negb (Config.no_set_weights (config (miner st1)))).
    + unfold mbind, call. cbn [clock tick write_log set_miner].
      destruct (set_weights_returns (S (S (S (clock st1))))) as [u ->].
      cbn. split; [lia | done].
    + cbn. split; [lia | done].
  - unfold mbind at 1. unfold mret at 1.
    destruct (negb (Config.no_set_weights (config (miner st1)))).
    + unfold mbind, call. cbn [clock tick write_log set_miner].
      destruct (set_weights_returns (S (S (clock st1)))) as [u ->].
      cbn. split; [lia | done].
    + cbn. split; [lia | done].
Qed.

(** How an epoch can end: it completes, or [wandb.log] was called and
    raised, or the polling wait is still under way. *)
Lemma epoch_outcome fuel st :
  match epoch fuel w st with
  | Done _ st' =>
      (S (clock st) ≤ clock st')%nat ∧ config (miner st') = config (miner st)
  | Threw e _ =>
      Config.wandb_on (config (miner st)) = true
      ∧ ∃ t, wandb_log w t = Raise e
  | OutOfFuel => ∃ cb, wait_for_epoch fuel w cb (tick st) = OutOfFuel
  end.
Proof.
  destruct (chain_answers (clock st)) as [cb Hcb].
  unfold epoch. rewrite (mbind_done _ _ _ cb (tick st))
    by (unfold call; by rewrite Hcb).
  pose proof (wait_outcome fuel cb (tick st)) as Hwait.
  destruct (wait_for_epoch fuel w cb (tick st)) as [[] st1|e1 st1|] eqn:Hw.
  - rewrite (mbind_done _ _ _ () st1 Hw).
    pose proof (after_wait_outcome st1) as Hrest.
    destruct Hwait as [Hle Hminer]. cbn [clock tick miner] in Hle, Hminer.
    cbv beta in Hrest |- *.
    match type of Hrest with
    | match ?r with _ => _ end => destruct r as [[] st2|e st2|]
    end; [| |done].
    + destruct Hrest as [Hle' Hcfg]. split; [lia | congruence].
    + destruct Hrest as [Hon Hlog]. split; [congruence | done].
  - done.
  - unfold mbind at 1. rewrite Hw. by exists cb.
Qed.

Section never_cancelled.
Context (cfg : Config.t).
Hypothesis Hflag : ∀ t, should_exit w t = false.
Hypothesis Hwandb : Config.wandb_on cfg = true → ∀ t, wandb_log w t = Ret ().

Lemma main_loop_never_ends fuel st :
  config (miner st) = cfg → main_loop fuel w st = OutOfFuel.
Proof.
  revert st. induction fuel as [|fuel IH]; intros st Hcfg;
    rewrite main_loop_unfold, Hflag; [done|].
  pose proof (epoch_outcome fuel (tick st)) as Hepoch.
  destruct (epoch fuel w (tick st)) as [[] st1|e st1|]; [| |done].
  - apply IH. destruct Hepoch as [_ ->]. exact Hcfg.
  - destruct Hepoch as [Hon [t Ht]]. cbn [miner tick] in Hon.
    rewrite Hcfg in Hon. by rewrite (Hwandb Hon) in Ht.
Qed.

End never_cancelled.

Section cancelled.
Context (T : nat) (cfg : Config.t).
Hypothesis Hflag : ∀ t, (T ≤ t)%nat → should_exit w t = true.
Hypothesis Hwandb :
  Config.wandb_on cfg = true →
  ∀ t e, wandb_log w t = Raise e → is_Exception e = true.

Lemma wait_completes fuel current_block st :
  (1 ≤ fuel)%nat → (T + 1 ≤ fuel + clock st)%nat →
  ∃ st', wait_for_epoch fuel w current_block st = Done () st'
         ∧ (clock st ≤ clock st')%nat.
Proof.
  revert current_block st.
  induction fuel as [|fuel IH]; intros cb st Hpos Hlate; [lia|].
  rewrite wait_for_epoch_unfold. case_bool_decide; [|by exists st].
  destruct (sleep_returns (clock st)) as [u ->].
  destruct (chain_answers (S (clock st))) as [cb' ->].
  destruct (should_exit w (S (S (clock st)))) eqn:Hexit.
  - eexists. split; [done | cbn; lia].
  - assert (S (S (clock st)) < T)%nat.
    { destruct (decide (T ≤ S (S (clock st)))%nat) as [Hle|]; [|lia].
      apply Hflag in Hle. congruence. }
    destruct (IH cb' (tick (tick (tick st)))) as (st' & Hst' & Hle);
      [lia | cbn; lia |].
    exists st'. split; [done | cbn in Hle; lia].
Qed.

(** Once the flag is up the loop ends: by the flag, or before that by an
    [Exception] of [wandb.log]. *)
Lemma main_loop_ends fuel st :
  (T + 1 ≤ fuel + clock st)%nat → config (miner st) = cfg →
  match main_loop fuel w st with
  | Done _ _ => True
  | Threw e _ => is_Exception e = true
  | OutOfFuel => False
  end.
Proof.
  revert st. induction fuel as [|fuel IH]; intros st Hlate Hcfg;
    rewrite main_loop_unfold.
  - by rewrite Hflag by lia.
  - destruct (should_exit w (clock st)) eqn:Hexit; [done|].
    assert (clock st < T)%nat.
    { destruct (decide (T ≤ clock st)%nat) as [Hle|]; [|lia].
      apply Hflag in Hle. congruence. }
    pose proof (epoch_outcome fuel (tick st)) as Hepoch.
    destruct (epoch fuel w (tick st)) as [[] st1|e st1|].
    + destruct Hepoch as [Hle Hcfg']. cbn [clock tick miner] in Hle, Hcfg'.
      apply IH; [lia | congruence].
    + destruct Hepoch as [Hon [t Ht]]. cbn [miner tick] in Hon.
      rewrite Hcfg in Hon. exact (Hwandb Hon t e Ht).
    + destruct Hepoch as [cb Hcb].
      destruct (wait_completes fuel cb (tick (tick st))) as (st1 & Hst1 & _);
        [cbn; lia | cbn; lia |]. congruence.
Qed.

End cancelled.

End calm_world.

(** X10: when no collaborator raises ([wandb.log] included, if [wandb.on]
    has it called) and [should_exit] is never set, [run] does not come back:
    however many epochs it is given, it is still in its loop. *)
Theorem run_goes_on_until_told w self fuel :
  is_hotkey_registered w = true → calm w →
  (Config.wandb_on (config self) = true → ∀ t, wandb_log w t = Ret ()) →
  (∀ t, should_exit w t = false) →
  run fuel w self = StillRunning.
Proof.
  intros Hreg Hcalm Hwandb Hflag. unfold run. rewrite Hreg. cbn [negb].
  destruct (chain_answers w Hcalm O) as [b Hb].
  unfold call. cbn [clock set_axon write_log]. rewrite Hb.
  by rewrite (main_loop_never_ends w Hcalm (config self) Hflag Hwandb).
Qed.

(** X11: when the chain client, [time.sleep], the metagraph sync and
    [set_weights] do not raise, [wandb.log] raises at most an [Exception],
    and [should_exit] is set from interaction [T] on, [run] returns
    normally, within [T] turns of its loops: the flag is seen at the next
    read, in the polling wait or at the head of the loop, and an
    [Exception] of [wandb.log] before that is caught. *)
Theorem run_returns_once_cancelled w self T fuel :
  is_hotkey_registered w = true → calm w →
  (Config.wandb_on (config self) = true →
   ∀ t e, wandb_log w t = Raise e → is_Exception e = true) →
  (∀ t, (T ≤ t)%nat → should_exit w t = true) →
  (T ≤ fuel)%nat →
  ∃ st, run fuel w self = Returned st.
Proof.
  intros Hreg Hcalm Hwandb Hflag Hfuel. unfold run. rewrite Hreg. cbn [negb].
  destruct (chain_answers w Hcalm O) as [b Hb].
  unfold call. cbn [clock set_axon write_log]. rewrite Hb.
  match goal with
  | |- context [main_loop fuel w ?st6] =>
      pose proof (main_loop_ends w Hcalm T (config self) Hflag Hwandb
                    fuel st6) as Hloop;
      destruct (main_loop fuel w st6) as [[] st'|e st'|]
  end.
  - eauto.
  - assert (is_Exception e = true) as He by (apply Hloop; [cbn; lia | done]).
    destruct e; cbn [is_Exception] in He |- *; try done; eauto.
  - exfalso. apply Hloop; [cbn; lia | done].
Qed.

Lemma quiet_world_calm : calm quiet_world.
Proof. intros t. split_and!; cbn; eauto. Defined.

Lemma cancelled_world_calm : calm cancelled_world.
Proof. intros t. split_and!; cbn; eauto. Defined.

Lemma run_goes_on_until_told_witness :
  (is_hotkey_registered quiet_world = true ∧ calm quiet_world
   ∧ (Config.wandb_on (config example_miner) = true →
      ∀ t, wandb_log quiet_world t = Ret ())
   ∧ ∀ t, should_exit quiet_world t = false)
  ∧ run 3 quiet_world example_miner = StillRunning.
Proof.
  split; [split_and!;
            [reflexivity | exact quiet_world_calm | reflexivity | reflexivity]|].
  exact (run_goes_on_until_told quiet_world example_miner 3 eq_refl
           quiet_world_calm (λ _ _, eq_refl) (λ t, eq_refl)).
Defined.

Lemma run_returns_once_cancelled_witness :
  (is_hotkey_registered cancelled_world = true ∧ calm cancelled_world
   ∧ (Config.wandb_on (config example_miner) = true →
      ∀ t e, wandb_log cancelled_world t = Raise e → is_Exception e = true)
   ∧ (∀ t, (5 ≤ t)%nat → should_exit cancelled_world t = true)
   ∧ (5 ≤ 5)%nat)
  ∧ ∃ st, run 5 cancelled_world example_miner = Returned st.
Proof.
  assert (Hflag : ∀ t, (5 ≤ t)%nat → should_exit cancelled_world t = true).
  { intros t Ht. cbn. by apply bool_decide_eq_true_2. }
  assert (Hwandb : Config.wandb_on (config example_miner) = true →
            ∀ t e, wandb_log cancelled_world t = Raise e →
                   is_Exception e = true).
  { intros _ t e He. discriminate He. }
  split; [split_and!;
            [reflexivity | exact cancelled_world_calm | exact Hwandb
            | exact Hflag | lia]|].
  exact (run_returns_once_cancelled cancelled_world example_miner 5 5 eq_refl
           cancelled_world_calm Hwandb Hflag (le_n 5)).
Defined.

(** With [wandb.on] set and a [wandb.log] that refuses the [str] it is
    handed, the first epoch is the last: [run] logs the exception and
    returns with [step] still 0, before [set_weights] was ever called. *)
Example run_with_refusing_wandb :
  ∀ fuel, ∃ st,
    run (2 + fuel) refusing_world reporting_miner = Returned st
    ∧ step st = 0 ∧ clock st = 6%nat ∧ axon_running st = true
    ∧ list.last (logged st)
      = Some (log_error "Traceback: wandb.log must be passed a dictionary").
Proof.
  intros [|fuel]; evaluate_run.
Qed.

Section epoch_spacing.
Context (w : World) (Hflag : ∀ t, should_exit w t = false).

(** While the flag is down the wait ends only on a chain height that is
    [blocks_per_epoch] past [last_epoch_block]: the one it was entered with
    or one read since. *)
Lemma wait_exits_past_epoch fuel current_block st st' :
  wait_for_epoch fuel w current_block st = Done () st' →
  miner st' = miner st ∧ (clock st ≤ clock st')%nat
  ∧ ∃ b, (b = current_block
          ∨ ∃ t, (clock st ≤ t < clock st')%nat ∧ get_current_block w t = Ret b)
         ∧ last_epoch_block (miner st)
           + Config.blocks_per_epoch (config (miner st)) ≤ b.
Proof.
  revert current_block st.
  induction fuel as [|fuel IH]; intros cb st;
    rewrite wait_for_epoch_unfold; case_bool_decide as Hcond; try done.
  1, 3: intros [= <-]; split_and!; [done | lia |];
        exists cb; split; [by left | lia].
  destruct (sleep w (clock st)) as [u|e]; [|done].
  destruct (get_current_block w (S (clock st))) as [cb'|e] eqn:Hcb'; [|done].
  rewrite Hflag. intros Hrec.
  apply IH in Hrec as (Hminer & Hle & b & Hb & Hpast).
  cbn [miner clock tick] in Hminer, Hle, Hb, Hpast.
  split_and!; [done | lia |]. exists b. split; [right | done].
  destruct Hb as [->|(t & Ht & Hbt)].
  - exists (S (clock st)). split; [lia | done].
  - exists t. split; [lia | done].
Qed.

(** What a completed epoch went through. *)
Lemma epoch_done_inv fuel st st' :
  epoch fuel w st = Done () st' →
  ∃ current_block st1 b,
    get_current_block w (clock st) = Ret current_block
    ∧ wait_for_epoch fuel w current_block (tick st) = Done () st1
    ∧ get_current_block w (clock st1) = Ret b
    ∧ last_epoch_block (miner st') = b
    ∧ config (miner st') = config (miner st1).
Proof.
  unfold epoch. unfold mbind at 1. unfold call at 1.
  destruct (get_current_block w (clock st)) as [cb|e]; [|done].
  unfold mbind at 1.
  destruct (wait_for_epoch fuel w cb (tick st)) as [[] st1|e st1|] eqn:Hwait;
    [|done..].
  unfold mbind at 1. unfold call at 1.
  destruct (get_current_block w (clock st1)) as [b|e] eqn:Hb; [|done].
  intros Hrest. exists cb, st1, b. split_and!; try done.
  all: revert Hrest; unfold mbind, modify, call, get_loop, mret;
    cbn [clock tick set_miner miner write_log];
    destruct (fetch_metagraph w _); [|done];
    destruct (Config.wandb_on _), (negb _); cbn [clock tick write_log];
    try (destruct (wandb_log w _); [|done]); cbn [clock tick write_log];
    try (destruct (set_weights w _); [|done]);
    by intros [= <-].
Qed.

End epoch_spacing.

(** X12: on a chain whose height never goes down and with [should_exit]
    never set, an epoch that completes moves [last_epoch_block] forward by
    at least [blocks_per_epoch]: the weights are set at most once in that
    many blocks. *)
Theorem epochs_are_spaced w fuel st st' :
  monotone_chain w → (∀ t, should_exit w t = false) →
  epoch fuel w st = Done () st' →
  last_epoch_block (miner st) + Config.blocks_per_epoch (config (miner st))
  ≤ last_epoch_block (miner st').
Proof.
  intros Hmono Hflag Hepoch.
  apply epoch_done_inv in Hepoch as (cb & st1 & b & Hcb & Hwait & Hb & Hlast & _).
  rewrite Hlast.
  apply (wait_exits_past_epoch w Hflag) in Hwait
    as (_ & Hle & b' & Hb' & Hpast).
  cbn [miner clock tick] in Hle, Hb', Hpast.
  assert (b' ≤ b); [|lia].
  destruct Hb' as [->|(t & Ht & Hbt)].
  - apply (Hmono (clock st) (clock st1)); [lia | done..].
  - apply (Hmono t (clock st1)); [lia | done..].
Qed.

Lemma quiet_world_monotone : monotone_chain quiet_world.
Proof. intros t t' b b' Hle [= <-] [= <-]. lia. Defined.

Lemma epochs_are_spaced_witness :
  (monotone_chain quiet_world ∧ ∀ t, should_exit quiet_world t = false)
  ∧ ∃ st', epoch 3 quiet_world loop_start = Done () st'
           ∧ last_epoch_block (miner loop_start)
             + Config.blocks_per_epoch (config (miner loop_start))
             ≤ last_epoch_block (miner st').
Proof.
  split; [split; [exact quiet_world_monotone | reflexivity]|].
  assert (H : ∃ st', epoch 3 quiet_world loop_start = Done () st').
  { let v := eval vm_compute in (epoch 3 quiet_world loop_start) in
    lazymatch v with Done _ ?s => exists s end.
    vm_compute. reflexivity. }
  destruct H as [st' H]. exists st'. split; [exact H|].
  exact (epochs_are_spaced quiet_world 3 loop_start st'
           quiet_world_monotone (λ t, eq_refl) H).
Defined.

(** ** Errors and logs of the blacklist functions *)

(** X13: [blacklist] raises exactly when the override supplies no verdict
    (it raised, or returned [None] as verdict) and [default_blacklist]
    raises, and then it raises what [default_blacklist] raises; the
    exception of the override itself never reaches the caller, and a verdict
    of the override is returned whether or not the default chain would
    fail. *)
Theorem blacklist_raises_exactly self func synapse now e :
  (blacklist self func synapse now).1 = Raise e
  ↔ default_blacklist self synapse now = Raise e
    ∧ ¬ gives_verdict func synapse.
Proof.
  unfold gives_verdict. destruct (func synapse) as [r|e0] eqn:Hfunc.
  - rewrite (blacklist_on_return _ _ _ _ _ Hfunc).
    destruct r as [[v|]|[v|] reason].
    + split; [done|]. intros [_ Hno]. destruct Hno. exists v. by left.
    + split; [|by intros [? _]]. intros Hraise. split; [done|].
      by intros (v & [?|(r & ?)]).
    + split; [done|]. intros [_ Hno]. destruct Hno. exists v. right. eauto.
    + split; [|by intros [? _]]. intros Hraise. split; [done|].
      by intros (v & [?|(r & ?)]).
  - rewrite (blacklist_raise_default _ _ _ _ _ Hfunc).
    split; [|by intros [? _]]. intros Hraise. split; [done|].
    by intros (v & [?|(r & ?)]).
Qed.

(** X14: [default_blacklist] raises only for a caller on neither list
    that the registration rule lets through, and then in three cases only:
    the validator permit is forced and the metagraph is missing; the permit
    is forced and the metagraph holds no permit at the caller's uid; or the
    permit rule passes and the caller's list of timestamps is empty.  What
    it raises is always an [Exception]. *)
Theorem default_blacklist_raises_exactly self synapse now :
  ((∃ e, default_blacklist self synapse now = Raise e)
   ↔ ¬ whitelisted self synapse ∧ ¬ blacklisted self synapse
     ∧ ¬ registration_rejects self synapse
     ∧ ((Config.force_validator_permit (config self) = true
         ∧ (metagraph self = None
            ∨ ∃ mg uid, metagraph self = Some mg
                ∧ index (caller synapse) (hotkeys mg) = Some uid
                ∧ validator_permit mg !! uid = None))
        ∨ (permit_passes self synapse
           ∧ request_timestamps self !! caller synapse = Some [])))
  ∧ (∀ e, default_blacklist self synapse now = Raise e →
          is_Exception e = true).
Proof.
  assert (Hperiod : ∀ e, request_period self synapse now = Raise e →
            request_timestamps self !! caller synapse = Some []
            ∧ is_Exception e = true).
  { intros e. unfold request_period. fold (caller synapse).
    destruct (request_timestamps self !! caller synapse) as [[|first rest]|];
      [by intros [= <-] | by case_bool_decide | done]. }
  assert (Hrule : ∀ e, validator_permit_rule self synapse = Raise e →
            is_Exception e = true
            ∧ Config.force_validator_permit (config self) = true
            ∧ (metagraph self = None
               ∨ ∃ mg uid, metagraph self = Some mg
                   ∧ index (caller synapse) (hotkeys mg) = Some uid
                   ∧ validator_permit mg !! uid = None)).
  { intros e. unfold validator_permit_rule. fold (caller synapse).
    destruct (Config.force_validator_permit (config self)); [|done].
    destruct (metagraph self) as [mg|]; [|intros [= <-]; eauto].
    destruct (index (caller synapse) (hotkeys mg)) as [uid|] eqn:Huid; [|done].
    destruct (validator_permit mg !! uid) as [permit|] eqn:Hpermit;
      [by destruct permit|].
    intros [= <-]. split_and!; [done..|]. right. by exists mg, uid. }
  assert (Hpasses : validator_permit_rule self synapse = Ret None →
            permit_passes self synapse).
  { unfold validator_permit_rule, permit_passes, registered_with.
    fold (caller synapse).
    destruct (Config.force_validator_permit (config self)); [|by left].
    destruct (metagraph self) as [mg|]; [|done].
    destruct (index (caller synapse) (hotkeys mg)) as [uid|] eqn:Huid; [|done].
    destruct (validator_permit mg !! uid) as [[]|] eqn:Hpermit; try done.
    intros _. right. by exists mg, uid. }
  split.
  - split.
    + intros [e He]. revert He. unfold default_blacklist. fold (caller synapse).
      case_bool_decide as Hwhite; [done|].
      case_bool_decide as Hblack; [done|].
      destruct (_ && _) eqn:Htest; [done|].
      assert (Hreg : ¬ registration_rejects self synapse).
      { intros Hreg. apply registration_test in Hreg. congruence. }
      destruct (validator_permit_rule self synapse) as [[verdict|]|e'] eqn:Hv.
      * done.
      * intros He. apply Hperiod in He as [Hempty _].
        split_and!; [done..|]. right. split; [by apply Hpasses | done].
      * intros _. destruct (Hrule e' eq_refl) as (_ & Hforce & Hmissing).
        split_and!; [done..|]. by left.
    + intros (Hwhite & Hblack & Hreg & Hcase).
      unfold default_blacklist. fold (caller synapse).
      rewrite (bool_decide_eq_false_2 _ Hwhite), (bool_decide_eq_false_2 _ Hblack).
      destruct (_ && _) eqn:Htest; [by apply registration_test in Htest|].
      destruct Hcase as [[Hforce Hmissing]|[Hpass Hempty]].
      * unfold validator_permit_rule. fold (caller synapse). rewrite Hforce.
        destruct Hmissing as [->|(mg & uid & -> & -> & ->)]; eauto.
      * rewrite (permit_rule_passes _ _ Hpass).
        unfold request_period. fold (caller synapse). rewrite Hempty. eauto.
  - intros e. unfold default_blacklist. fold (caller synapse).
    case_bool_decide; [done|]. case_bool_decide; [done|].
    destruct (_ && _); [done|].
    destruct (validator_permit_rule self synapse) as [[verdict|]|e'] eqn:Hv.
    + done.
    + intros He. by apply Hperiod in He as [_ ?].
    + intros [= <-]. by destruct (Hrule e' eq_refl) as (? & _).
Qed.

(** What [blacklist] logs: the opening trace line, the error line of the
    second [except] clause if it was entered, then what [finally] logs. *)
Lemma blacklist_log self func synapse now :
  ∃ vars,
    blacklist self func synapse now
    = ((finally self synapse now vars).1,
       log_trace "run blacklist function"
       :: match func synapse with
          | Raise e =>
              if negb (is_NotImplementedError e) && is_Exception e
              then [log_error ("Error in blacklist function: " +:+ exn_str e)]
              else []
          | Ret _ => []
          end ++ (finally self synapse now vars).2).
Proof.
  unfold blacklist, try_override, handle.
  destruct (func synapse) as [[v|v reason]|e].
  - exists (v ≫= λ b, Some (b, "no reason provided")).
    by destruct (finally _ _ _ _).
  - exists (v ≫= λ b, Some (b, reason)). by destruct (finally _ _ _ _).
  - destruct (is_NotImplementedError e), (is_Exception e); cbn [negb andb];
      destruct (default_blacklist self synapse now) as [verdict|e'];
      first [ exists (Some verdict); by destruct (finally _ _ _ _)
            | exists None; by destruct (finally _ _ _ _) ].
Qed.

Lemma finally_telemetry self synapse now vars blacklisted reason who :
  wandb_blacklisted blacklisted reason who ∈ (finally self synapse now vars).2
  ↔ (finally self synapse now vars).1 = Ret (true, reason)
    ∧ Config.wandb_on (config self) = true
    ∧ blacklisted = 1 ∧ who = caller synapse.
Proof.
  unfold finally, caller.
  destruct (match vars with
            | Some verdict => Ret verdict
            | None => default_blacklist self synapse now
            end) as [[does_blacklist reason']|e]; cbn [fst snd].
  - destruct does_blacklist, (Config.wandb_on (config self)); cbn [andb].
    + rewrite !elem_of_cons, elem_of_nil. split.
      * intros [?|[[= -> -> ->]|[]]]; [done|]. done.
      * intros ([= ->] & _ & -> & ->). right. by left.
    + rewrite elem_of_cons, elem_of_nil. split; [by intros [?|[]]|].
      by intros (_ & ? & _).
    + rewrite !elem_of_cons, elem_of_nil. split; [by intros [?|[]]|].
      by intros (? & _).
    + rewrite elem_of_cons, elem_of_nil. split; [by intros [?|[]]|].
      by intros (? & _).
  - rewrite elem_of_nil. split; [done | by intros (? & _)].
Qed.

(** X15: [blacklist] sends a record to [wandb] exactly when it returns a
    reject and [wandb.on] is set; the record carries the returned reason and
    the caller's hotkey. *)
Theorem telemetry_exactly_on_reject self func synapse now blacklisted reason who :
  wandb_blacklisted blacklisted reason who ∈ (blacklist self func synapse now).2
  ↔ (blacklist self func synapse now).1 = Ret (true, reason)
    ∧ Config.wandb_on (config self) = true
    ∧ blacklisted = 1 ∧ who = caller synapse.
Proof.
  destruct (blacklist_log self func synapse now) as [vars ->]. cbn [fst snd].
  rewrite <- finally_telemetry. rewrite elem_of_cons, elem_of_app.
  split; [|by eauto].
  intros [?|[Herr|?]]; [done| |done].
  destruct (func synapse) as [r|e]; [by apply elem_of_nil in Herr|].
  destruct (_ && _); [|by apply elem_of_nil in Herr].
  apply elem_of_cons in Herr as [?|Herr]; [done | by apply elem_of_nil in Herr].
Qed.

(** X16: [blacklist] logs an error line exactly when the override raised
    an [Exception] other than [NotImplementedError]; the line names that
    exception. *)
Theorem error_logged_exactly_on_failure self func synapse now msg :
  log_error msg ∈ (blacklist self func synapse now).2
  ↔ ∃ e, func synapse = Raise e
         ∧ is_Exception e = true ∧ is_NotImplementedError e = false
         ∧ msg = "Error in blacklist function: " +:+ exn_str e.
Proof.
  destruct (blacklist_log self func synapse now) as [vars ->]. cbn [snd].
  assert (Hfinally : log_error msg ∉ (finally self synapse now vars).2).
  { unfold finally.
    destruct (match vars with
              | Some verdict => Ret verdict
              | None => default_blacklist self synapse now
              end) as [[does_blacklist reason]|e]; cbn [snd];
      [|apply not_elem_of_nil].
    destruct (_ && _); intros H;
      repeat (apply elem_of_cons in H as [H|H]; [discriminate|]);
      by apply elem_of_nil in H. }
  rewrite elem_of_cons, elem_of_app. split.
  - intros [?|[Herr|?]]; [done| |done].
    destruct (func synapse) as [r|e]; [by apply elem_of_nil in Herr|].
    destruct (is_NotImplementedError e) eqn:Hni, (is_Exception e) eqn:Hex;
      cbn [negb andb] in Herr; try by apply elem_of_nil in Herr.
    apply elem_of_cons in Herr as [[= ->]|Herr]; [|by apply elem_of_nil in Herr].
    by exists e.
  - intros (e & -> & -> & -> & ->). right. left. cbn. apply elem_of_cons. by left.
Qed.

(** ** More on the request cache *)

(** X17: an awaited call of [is_request_in_cache] adds at most one entry
    to the cache, and none when it reports a duplicate. *)
Theorem cache_grows_by_one_at_most synapse self mg :
  metagraph self = Some mg →
  let after := (await (is_request_in_cache synapse) self).2 in
  (size (request_cache after) ≤ S (size (request_cache self)))%nat
  ∧ (is_Some (request_cache self !! request_key synapse) →
     (size (request_cache after) ≤ size (request_cache self))%nat).
Proof.
  intros Hmg after. subst after.
  pose proof (lookup_after_call synapse self mg) as Hlook.
  set (after := request_cache (await (is_request_in_cache synapse) self).2)
    in Hlook |- *.
  assert (Hdup : is_Some (request_cache self !! request_key synapse) →
            (size after ≤ size (request_cache self))%nat).
  { intros [b0 Hb0]. apply map_subseteq_size, map_subseteq_spec.
    intros key b Hb.
    apply (Hlook key b Hmg) in Hb as [[Hb|(_ & Hnone & _)] _]; [done|].
    congruence. }
  split; [|exact Hdup].
  destruct (request_cache self !! request_key synapse) as [b0|] eqn:Hkey.
  - etransitivity; [apply Hdup; eauto | lia].
  - transitivity (size (<[request_key synapse := block mg]> (request_cache self))).
    + apply map_subseteq_size, map_subseteq_spec. intros key b Hb.
      apply (Hlook key b Hmg) in Hb as [[Hb|(-> & _ & ->)] _].
      * rewrite lookup_insert_ne; [done|]. intros <-. congruence.
      * apply lookup_insert_eq.
    + by rewrite map_size_insert_None.
Qed.

Lemma cache_grows_by_one_at_most_witness :
  metagraph example_miner = Some (example_metagraph 100)
  ∧ (size (request_cache (await (is_request_in_cache hello) example_miner).2)
     ≤ S (size (request_cache example_miner)))%nat.
Proof.
  split; [reflexivity|].
  exact (proj1 (cache_grows_by_one_at_most hello example_miner
                  (example_metagraph 100) eq_refl)).
Defined.

(** After a call that found the fingerprint at a block that has not
    expired, every further call for it at the same chain height reports a
    duplicate. *)
Lemma replay_duplicates requests mg self synapse B :
  request_cache self !! request_key synapse = Some B →
  block mg ≤ B + Config.request_cache_block_span (config self) →
  Forall (λ s, messages s = messages synapse) requests →
  obs_duplicate <$> (replay ((λ s, (s, mg)) <$> requests) self).1
  = repeat true (length requests).
Proof.
  revert self. induction requests as [|s requests IH]; intros self HB Hfresh Hall.
  - done.
  - apply Forall_cons_1 in Hall as [Hs Hall].
    assert (Hkey : request_key s = request_key synapse).
    { unfold request_key. by rewrite Hs. }
    cbn [fmap list_fmap replay].
    set (self0 := {| config := config self; request_cache := request_cache self;
                     metagraph := Some mg;
                     request_timestamps := request_timestamps self;
                     last_epoch_block := last_epoch_block self |}).
    assert (Hmg : metagraph self0 = Some mg) by done.
    assert (Hkept : request_cache (await (is_request_in_cache s) self0).2
                    !! request_key synapse = Some B).
    { apply (lookup_after_call s self0 mg _ B Hmg).
      split; [by left | cbn; lia]. }
    rewrite (await_is_request_in_cache _ _ _ Hmg) in Hkept |- *.
    cbn [snd] in Hkept.
    specialize (IH _ Hkept Hfresh Hall).
    change (list_fmap _ _ ?f ?l) with (f <$> l).
    destruct (replay _ _) as [older self2]. cbn [fst] in IH |- *.
    rewrite fmap_app, IH. cbn [fmap list_fmap obs_duplicate].
    rewrite Hkey. change (request_cache self0) with (request_cache self).
    rewrite bool_decide_eq_true_2 by eauto.
    symmetry. apply repeat_cons.
Qed.

(** X18: of any number of requests with the same messages checked one
    after the other at one chain height, on a cache that does not hold their
    fingerprint and with a span that is not negative, the first is reported
    new and every other one a duplicate. *)
Theorem one_admitted_rest_duplicates synapse others mg self :
  request_cache self !! request_key synapse = None →
  0 ≤ Config.request_cache_block_span (config self) →
  Forall (λ s, messages s = messages synapse) others →
  obs_duplicate
    <$> (replay ((synapse, mg) :: ((λ s, (s, mg)) <$> others)) self).1
  = repeat true (length others) ++ [false].
Proof.
  intros Hnone Hspan Hall. cbn [replay].
  set (self0 := {| config := config self; request_cache := request_cache self;
                   metagraph := Some mg;
                   request_timestamps := request_timestamps self;
                   last_epoch_block := last_epoch_block self |}).
  assert (Hmg : metagraph self0 = Some mg) by done.
  assert (Hnew : request_cache (await (is_request_in_cache synapse) self0).2
                 !! request_key synapse = Some (block mg)).
  { apply (lookup_after_call synapse self0 mg _ _ Hmg).
    split; [right; by split_and! | cbn; lia]. }
  rewrite (await_is_request_in_cache _ _ _ Hmg) in Hnew |- *.
  cbn [snd] in Hnew.
  pose proof (replay_duplicates others mg _ synapse (block mg) Hnew) as Hrest.
  destruct (replay _ _) as [older self2]. cbn [fst] in Hrest |- *.
  rewrite fmap_app, Hrest; [|cbn; lia|done].
  cbn [fmap list_fmap obs_duplicate].
  change (request_cache self0) with (request_cache self).
  rewrite bool_decide_eq_false_2; [done|]. rewrite Hnone. by intros [? ?].
Qed.

Lemma one_admitted_rest_duplicates_witness :
  (request_cache example_miner !! request_key hello = None
   ∧ 0 ≤ Config.request_cache_block_span (config example_miner)
   ∧ Forall (λ s, messages s = messages hello)
       [request_from "plain" ["hello"]; hello])
  ∧ obs_duplicate
      <$> (replay [(hello, example_metagraph 100);
                   (request_from "plain" ["hello"], example_metagraph 100);
                   (hello, example_metagraph 100)] example_miner).1
    = [true; true; false].
Proof.
  assert (H1 : request_cache example_miner !! request_key hello = None)
    by (vm_compute; reflexivity).
  assert (H2 : 0 ≤ Config.request_cache_block_span (config example_miner))
    by (vm_compute; discriminate).
  assert (H3 : Forall (λ s, messages s = messages hello)
                 [request_from "plain" ["hello"]; hello])
    by (repeat constructor).
  split; [by split_and! |].
  exact (one_admitted_rest_duplicates hello
           [request_from "plain" ["hello"]; hello]
           (example_metagraph 100) example_miner H1 H2 H3).
Defined.

(** X19: a request whose entry has expired is turned away once more, by
    the call that sweeps the entry, and is new again for the next call: at
    the same chain height and with a span that is not negative, that call
    reports no duplicate and records the request at the current block. *)
Theorem expired_request_is_new_again synapse self mg B :
  metagraph self = Some mg →
  request_cache self !! request_key synapse = Some B →
  B + Config.request_cache_block_span (config self) < block mg →
  0 ≤ Config.request_cache_block_span (config self) →
  let once := (await (is_request_in_cache synapse) self).2 in
  (await (is_request_in_cache synapse) self).1 = Ret true
  ∧ (await (is_request_in_cache synapse) once).1 = Ret false
  ∧ request_cache (await (is_request_in_cache synapse) once).2
    !! request_key synapse = Some (block mg).
Proof.
  intros Hmg HB Hold Hspan once. subst once.
  assert (Hgone : request_cache (await (is_request_in_cache synapse) self).2
                  !! request_key synapse = None).
  { apply eq_None_not_Some. intros [b Hb].
    apply (lookup_after_call synapse self mg _ b Hmg)
      in Hb as [[Hb|(_ & Hnone & _)] Hfresh]; [|congruence].
    assert (b = B) as -> by congruence. lia. }
  assert (Hmg' : metagraph (await (is_request_in_cache synapse) self).2
                 = Some mg).
  { by rewrite (await_is_request_in_cache _ _ _ Hmg). }
  assert (Hconfig : config (await (is_request_in_cache synapse) self).2
                    = config self).
  { by rewrite (await_is_request_in_cache _ _ _ Hmg). }
  split_and!.
  - rewrite (await_is_request_in_cache _ _ _ Hmg). cbn [fst].
    by rewrite bool_decide_eq_true_2 by eauto.
  - rewrite (await_is_request_in_cache _ _ _ Hmg'). cbn [fst].
    rewrite bool_decide_eq_false_2; [done|]. rewrite Hgone. by intros [? ?].
  - apply (lookup_after_call synapse _ mg _ _ Hmg').
    split; [right; by split_and! | rewrite Hconfig; lia].
Qed.

Lemma expired_request_is_new_again_witness :
  (metagraph stale_miner = Some (example_metagraph 100)
   ∧ request_cache stale_miner !! request_key hello = Some 90
   ∧ 90 + Config.request_cache_block_span (config stale_miner)
     < block (example_metagraph 100)
   ∧ 0 ≤ Config.request_cache_block_span (config stale_miner))
  ∧ (await (is_request_in_cache hello)
       (await (is_request_in_cache hello) stale_miner).2).1 = Ret false.
Proof.
  assert (H2 : request_cache stale_miner !! request_key hello = Some 90)
    by (vm_compute; reflexivity).
  assert (H3 : 90 + Config.request_cache_block_span (config stale_miner)
               < block (example_metagraph 100)) by (vm_compute; reflexivity).
  assert (H4 : 0 ≤ Config.request_cache_block_span (config stale_miner))
    by (vm_compute; discriminate).
  split; [by split_and! |].
  exact (proj1 (proj2 (expired_request_is_new_again hello stale_miner
                         (example_metagraph 100) 90 eq_refl H2 H3 H4))).
Defined.

(** ** The uid of the miner *)

Lemma index_Some (x : string) (l : list string) (i : nat) :
  index x l = Some i
  ↔ l !! i = Some x ∧ ∀ j, (j < i)%nat → l !! j ≠ Some x.
Proof.
  revert i. induction l as [|y l IH]; intros i; cbn [index].
  - split; [done | by intros [? _]].
  - case_bool_decide as Hy.
    + subst y. split.
      * intros [= <-]. split; [done | intros j Hj; lia].
      * intros [Hi Hfirst]. destruct i as [|i]; [done|].
        by destruct (Hfirst O ltac:(lia)).
    + destruct i as [|i].
      * split; [by destruct (index x l) | intros [[= ?] _]; congruence].
      * rewrite fmap_Some. split.
        -- intros (i' & Hi' & [= ->]). apply IH in Hi' as [Hi' Hfirst].
           split; [done|]. intros [|j] Hj; cbn; [congruence|].
           apply Hfirst. lia.
        -- intros [Hi Hfirst]. exists i. split; [|done]. apply IH.
           split; [done|]. intros j Hj. apply (Hfirst (S j)). lia.
Qed.

(** X20: the constructor ends the process exactly when the miner's own
    hotkey is not among the registered ones, and otherwise the uid it keeps
    is the first position that holds the hotkey. *)
Theorem uid_points_at_own_hotkey ss58_address mg :
  (my_subnet_uid ss58_address mg = Raise SystemExit
   ↔ ss58_address ∉ hotkeys mg)
  ∧ (∀ e, my_subnet_uid ss58_address mg = Raise e → e = SystemExit)
  ∧ (∀ uid, my_subnet_uid ss58_address mg = Ret uid
            ↔ hotkeys mg !! uid = Some ss58_address
              ∧ ∀ j, (j < uid)%nat → hotkeys mg !! j ≠ Some ss58_address).
Proof.
  unfold my_subnet_uid. split_and!.
  - rewrite <- index_None. by destruct (index ss58_address (hotkeys mg)).
  - intros e. destruct (index ss58_address (hotkeys mg)); [done|].
    by intros [= <-].
  - intros uid. rewrite <- index_Some.
    destruct (index ss58_address (hotkeys mg)); [|done].
    split; by intros [= ->].
Qed.

(** ** The fingerprint loses nothing before the hash *)

Lemma append_assoc (s1 s2 s3 : string) :
  (s1 +:+ s2) +:+ s3 = s1 +:+ (s2 +:+ s3).
Proof.
  induction s1 as [|c s1 IH]; [reflexivity|].
  change (String c ((s1 +:+ s2) +:+ s3) = String c (s1 +:+ (s2 +:+ s3))).
  by rewrite IH.
Qed.

Lemma append_nil_l (s : string) : "" +:+ s = s.
Proof. reflexivity. Qed.

Lemma unescape_escape_char c rest :
  unescape_head (Json.escape_char c +:+ rest) = Some (c, rest).
Proof. destruct c as [[] [] [] [] [] [] [] []]; reflexivity. Qed.

Lemma escape_ends_at_quote s1 s2 rest1 rest2 :
  Json.escape s1 +:+ String Json.quote rest1
  = Json.escape s2 +:+ String Json.quote rest2 →
  s1 = s2 ∧ rest1 = rest2.
Proof.
  revert s2. induction s1 as [|c1 s1 IH]; intros [|c2 s2];
    cbn [Json.escape]; rewrite ?append_assoc, ?append_nil_l.
  - by intros [= ->].
  - intros H. pose proof (f_equal unescape_head H) as H'.
    rewrite unescape_escape_char in H'. injection H' as [= <- _].
    by vm_compute in H.
  - intros H. pose proof (f_equal unescape_head H) as H'.
    rewrite unescape_escape_char in H'. injection H' as [= -> _].
    by vm_compute in H.
  - intros H. apply (f_equal unescape_head) in H.
    rewrite !unescape_escape_char in H. injection H as [= -> H].
    by apply IH in H as [-> ->].
Qed.

Lemma dumps_str_app s rest :
  Json.dumps_str s +:+ rest
  = String Json.quote (Json.escape s +:+ String Json.quote rest).
Proof. unfold Json.dumps_str. by rewrite append_assoc. Qed.

Lemma join_cons_app x items tail :
  Json.join ", " (x :: items) +:+ tail
  = x +:+ match items with
          | [] => tail
          | _ => String "," (String " " (Json.join ", " items +:+ tail))
          end.
Proof.
  destruct items as [|y items]; [done|].
  cbn [Json.join]. by rewrite !append_assoc.
Qed.

Lemma join_inj items1 : ∀ items2 x1 x2,
  Json.join ", " (map Json.dumps_str (x1 :: items1)) +:+ "]"
  = Json.join ", " (map Json.dumps_str (x2 :: items2)) +:+ "]" →
  x1 = x2 ∧ items1 = items2.
Proof.
  induction items1 as [|y1 items1 IH]; intros items2 x1 x2 H;
    cbn [map] in H;
    rewrite (join_cons_app (Json.dumps_str x1)),
            (join_cons_app (Json.dumps_str x2)), !dumps_str_app in H;
    injection H as H; apply escape_ends_at_quote in H as [-> H];
    destruct items2 as [|y2 items2]; cbn [map] in H.
  - split; reflexivity.
  - discriminate H.
  - discriminate H.
  - injection H as H. apply IH in H as [-> ->]. split; reflexivity.
Qed.

Lemma dumps_inj l1 l2 : Json.dumps l1 = Json.dumps l2 → l1 = l2.
Proof.
  unfold Json.dumps. intros [= H].
  destruct l1 as [|x1 l1], l2 as [|x2 l2]; [done| | |].
  - cbn [map] in H. rewrite join_cons_app, dumps_str_app in H. done.
  - cbn [map] in H. rewrite join_cons_app, dumps_str_app in H. done.
  - by apply join_inj in H as [-> ->].
Qed.

Lemma decode_encode c s :
  decode_head (encode (String c s)) = Some (c, encode s).
Proof. destruct c as [[] [] [] [] [] [] [] []]; reflexivity. Qed.

Lemma encode_inj s1 : ∀ s2, encode s1 = encode s2 → s1 = s2.
Proof.
  induction s1 as [|c1 s1 IH]; intros [|c2 s2] H; [done| | |].
  - apply (f_equal decode_head) in H. by rewrite decode_encode in H.
  - apply (f_equal decode_head) in H. by rewrite decode_encode in H.
  - apply (f_equal decode_head) in H. rewrite !decode_encode in H.
    injection H as [= -> H]. by rewrite (IH _ H).
Qed.

(** X21: what is hashed determines the messages: [json.dumps] followed by
    [encode] gives two requests the same bytes exactly when their message
    lists are equal, so two requests with different messages can share a
    fingerprint only through a collision of SHA-256 itself. *)
Theorem hashed_bytes_determine_messages (s1 s2 : Inference) :
  encode (Json.dumps (messages s1)) = encode (Json.dumps (messages s2))
  ↔ messages s1 = messages s2.
Proof.
  split; [|by intros ->].
  intros H. by apply encode_inj, dumps_inj in H.
Qed.
